(** * User authentication service: a shallow embedding

    Embedded sources:
    - [0x03-user_authentication_service/user.py]  (the [User] table),
    - [0x03-user_authentication_service/db.py]    (class [DB]),
    - [0x03-user_authentication_service/auth.py]  (class [Auth]),
    - [0x00-personal_data/encrypt_password.py]    ([hash_password], [is_valid]).

    The SQLite table behind the SQLAlchemy session is a list of rows in
    rowid order.  Every method is a function in a state-and-exception
    monad over that table, a log of the SQL statements the session has
    executed, and a counter of the random draws made so far.  The
    libraries the code calls ([bcrypt], [uuid], and SQLAlchemy outside the
    mapped columns) are parameters, collected in the class [Libs]; what a
    theorem needs of them is stated as a contract.  An [Auth] object owns
    a database that starts empty, so the theorems about rows are stated
    over the states its methods can reach. *)

From Stdlib Require Import List String Ascii ZArith Lia Bool Arith.
From Stdlib.Strings Require Import Byte.
From Stdlib Require Import DecimalString DecimalNat.
Import ListNotations.

Local Open Scope string_scope.
Local Open Scope Z_scope.
Local Open Scope list_scope.

(** ** Python values and exceptions *)

Definition bytes := list byte.

Definition bytes_eqb (a b : bytes) : bool :=
  if list_eq_dec Byte.byte_eq_dec a b then true else false.

(** A [str] is kept as the byte string of its UTF-8 encoding, so
    [password.encode("utf-8")] reads the bytes off. *)
Definition encode_utf8 (s : string) : bytes := list_byte_of_string s.

(** The exceptions that cross the methods below.  [LibraryError] stands
    for whatever else a library call raises. *)
Inductive Exception : Type :=
| NoResultFound
| InvalidRequestError
| ValueError
| IntegrityError
| LibraryError (name : string).

Inductive Result (A : Type) : Type :=
| Ret (a : A)
| Raise (e : Exception).
Arguments Ret {A} a.
Arguments Raise {A} e.

(** ** user.py: the [users] table *)

Record User : Type := mkUser {
  id : Z;                          (* Column(Integer, primary_key=True) *)
  email : string;                  (* Column(String(250), nullable=False) *)
  hashed_password : bytes;         (* Column(String(250), nullable=False) *)
  session_id : option string;      (* Column(String(250), nullable=True) *)
  reset_token : option string      (* Column(String(250), nullable=True) *)
}.

(** One keyword argument of [find_user_by] or [update_user]; a list of
    them is [kwargs.items()] in its order.  A keyword that names a mapped
    column carries a value of the column's declared type; for [id] that
    is an integer SQLite holds, a signed 64-bit one ([int64] below: any
    other is refused by sqlite3 when it binds the parameter, and the
    theorems about ids given by a caller state the range).  [kw_other] is
    any other keyword: a name that is no mapped column, or a column name
    with a value outside the column's type. *)
Inductive kwarg : Type :=
| kw_id (v : Z)
| kw_email (v : string)
| kw_hashed_password (v : bytes)
| kw_session_id (v : option string)
| kw_reset_token (v : option string)
| kw_other (name : string).

Definition key (k : kwarg) : string :=
  match k with
  | kw_id _ => "id"
  | kw_email _ => "email"
  | kw_hashed_password _ => "hashed_password"
  | kw_session_id _ => "session_id"
  | kw_reset_token _ => "reset_token"
  | kw_other name => name
  end.

Definition is_column (k : kwarg) : bool :=
  match k with kw_other _ => false | _ => true end.

Definition columns : list string :=
  ["id"; "email"; "hashed_password"; "session_id"; "reset_token"].

(** ** The state of the process *)

Inductive Stmt : Type := SELECT | INSERT | UPDATE.

Record World : Type := mkWorld {
  users : list User;        (* rows of the table, in rowid order *)
  statements : list Stmt;   (* statements executed so far, newest first *)
  entropy : nat             (* random draws consumed so far *)
}.

(** [DB()] drops and recreates the table; [Auth()] builds a [DB()]. *)
Definition init (seed : nat) : World := mkWorld [] [] seed.

Definition M (A : Type) : Type := World -> Result A * World.

Definition ret {A} (a : A) : M A := fun w => (Ret a, w).
Definition raise {A} (e : Exception) : M A := fun w => (Raise e, w).
Definition bind {A B} (m : M A) (f : A -> M B) : M B :=
  fun w => match m w with
           | (Ret a, w') => f a w'
           | (Raise e, w') => (Raise e, w')
           end.

(** [try: m  except NoResultFound: h] *)
Definition try_except_NoResultFound {A} (m : M A) (h : M A) : M A :=
  fun w => match m w with
           | (Raise NoResultFound, w') => h w'
           | other => other
           end.

(** [try: m  except Exception: h] *)
Definition try_except_Exception {A} (m : M A) (h : M A) : M A :=
  fun w => match m w with
           | (Raise _, w') => h w'
           | other => other
           end.

Notation "x <- m ;; f" := (bind m (fun x => f))
  (at level 61, m at next level, right associativity).
Notation "m ;;; f" := (bind m (fun _ => f))
  (at level 61, right associativity).

Definition execute (s : Stmt) : M unit :=
  fun w => (Ret tt, mkWorld (users w) (s :: statements w) (entropy w)).
Definition rows : M (list User) := fun w => (Ret (users w), w).
Definition store (us : list User) : M unit :=
  fun w => (Ret tt, mkWorld us (statements w) (entropy w)).
Definition draw : M nat :=
  fun w => (Ret (entropy w), mkWorld (users w) (statements w) (S (entropy w))).
Definition lift {A} (r : Result A) : M A := fun w => (r, w).

(** ** The libraries *)

Class Libs : Type := {
  (** [bcrypt.gensalt()] at the n-th random draw *)
  gensalt : nat -> bytes;
  (** [bcrypt.hashpw(password, salt)] *)
  hashpw : bytes -> bytes -> Result bytes;
  (** [bcrypt.checkpw(password, hashed_password)] *)
  checkpw : bytes -> bytes -> Result bool;
  (** [str(uuid4())] at the n-th random draw *)
  uuid4 : nat -> string;
  (** [hasattr(User, name)] for a name that is not a mapped column
      (attributes the declarative class has besides its columns) *)
  class_attr : string -> bool;
  (** the query of [find_user_by] when the criteria are empty or hold a
      keyword that is not a mapped column *)
  query_other : list kwarg -> list User -> Result (option User);
  (** the UPDATE of [update_user] in the same cases *)
  update_other : Z -> list kwarg -> list User -> Result (list User)
}.

(** ** db.py: class DB *)

Module DB.
Section WithLibs.
Context {L : Libs}.

(** [hasattr(User, key)] *)
Definition hasattr_User (name : string) : bool :=
  existsb (String.eqb name) columns || class_attr name.

(** The criteria (or assignments) the model evaluates itself: at least
    one keyword, each a mapped column. *)
Definition mapped (kwargs : list kwarg) : bool :=
  match kwargs with
  | [] => false
  | _ => forallb is_column kwargs
  end.

(** The rowid SQLite gives an inserted row whose INTEGER PRIMARY KEY is
    left unset: one more than the largest in the table, 1 when empty.
    That is SQLite's rule while the largest rowid there is, [max_rowid]
    below, is not in use; the theorems about the new id state it. *)
Definition next_rowid (us : list User) : Z :=
  match map id us with
  | [] => 1
  | i :: rest => 1 + fold_right Z.max i rest
  end.

(** [self._session.add(new_user); self._session.commit()] *)
Definition session_add (email : string) (hashed_password : bytes) : M User :=
  us <- rows ;;
  let new_user := mkUser (next_rowid us) email hashed_password None None in
  execute INSERT ;;;
  store (us ++ [new_user]) ;;;
  ret new_user.

Definition add_user (email : string) (hashed_password : bytes)
  : M (option User) :=
  try_except_Exception
    (new_user <- session_add email hashed_password ;; ret (Some new_user))
    ((* self._session.rollback() *) ret None).

(** The first loop of [find_user_by]: every key must be an attribute of
    [User]. *)
Fixpoint fields_values (kwargs : list kwarg) : Result (list kwarg) :=
  match kwargs with
  | [] => Ret []
  | k :: rest =>
      if hasattr_User (key k)
      then match fields_values rest with
           | Ret fv => Ret (k :: fv)
           | Raise e => Raise e
           end
      else Raise InvalidRequestError
  end.

(** SQL equality: NULL equals nothing, itself included. *)
Definition sql_eq (column value : option string) : bool :=
  match column, value with
  | Some a, Some b => String.eqb a b
  | _, _ => false
  end.

Definition holds (u : User) (k : kwarg) : bool :=
  match k with
  | kw_id v => id u =? v
  | kw_email v => String.eqb (email u) v
  | kw_hashed_password v => bytes_eqb (hashed_password u) v
  | kw_session_id v => sql_eq (session_id u) v
  | kw_reset_token v => sql_eq (reset_token u) v
  | kw_other _ => false
  end.

(** [query(User).filter(tuple_( *fields).in_([tuple(values)])).first()] *)
Definition query_first (criteria : list kwarg) (us : list User)
  : Result (option User) :=
  if mapped criteria
  then Ret (find (fun u => forallb (holds u) criteria) us)
  else query_other criteria us.

Definition find_user_by (kwargs : list kwarg) : M User :=
  criteria <- lift (fields_values kwargs) ;;
  us <- rows ;;
  execute SELECT ;;;
  result <- lift (query_first criteria us) ;;
  match result with
  | None => raise NoResultFound
  | Some user => ret user
  end.

(** The loop of [update_user]. *)
Fixpoint update_source (kwargs : list kwarg) : Result (list kwarg) :=
  match kwargs with
  | [] => Ret []
  | k :: rest =>
      if hasattr_User (key k)
      then match update_source rest with
           | Ret src => Ret (k :: src)
           | Raise e => Raise e
           end
      else Raise ValueError
  end.

Definition assign (u : User) (k : kwarg) : User :=
  match k with
  | kw_id v =>
      mkUser v (email u) (hashed_password u) (session_id u) (reset_token u)
  | kw_email v =>
      mkUser (id u) v (hashed_password u) (session_id u) (reset_token u)
  | kw_hashed_password v =>
      mkUser (id u) (email u) v (session_id u) (reset_token u)
  | kw_session_id v =>
      mkUser (id u) (email u) (hashed_password u) v (reset_token u)
  | kw_reset_token v =>
      mkUser (id u) (email u) (hashed_password u) (session_id u) v
  | kw_other _ => u
  end.

Definition set_columns (src : list kwarg) (u : User) : User :=
  fold_left assign src u.

Fixpoint distinct (ids : list Z) : bool :=
  match ids with
  | [] => true
  | i :: rest => negb (existsb (Z.eqb i) rest) && distinct rest
  end.

Definition unique_ids (us : list User) : bool := distinct (map id us).

Definition same_ids (us us' : list User) : bool :=
  if list_eq_dec Z.eq_dec (map id us) (map id us') then true else false.

(** The table in rowid order again, after a statement has changed ids. *)
Fixpoint insert_row (u : User) (us : list User) : list User :=
  match us with
  | [] => [u]
  | v :: rest =>
      if id u <=? id v then u :: v :: rest else v :: insert_row u rest
  end.

Definition by_rowid (us : list User) : list User :=
  fold_right insert_row [] us.

(** [query(User).filter(User.id == user_id).update(update_source)]: every
    row with that id is rewritten.  When the statement assigns ids, the
    primary key must stay unique or the statement fails. *)
Definition query_update (user_id : Z) (src : list kwarg) (us : list User)
  : Result (list User) :=
  if mapped src
  then let us' :=
         map (fun u => if id u =? user_id then set_columns src u else u) us in
       if same_ids us us' then Ret us'
       else if unique_ids us' then Ret (by_rowid us')
       else Raise IntegrityError
  else update_other user_id src us.

Definition update_user (user_id : Z) (kwargs : list kwarg) : M unit :=
  user <- find_user_by [kw_id user_id] ;;
  (* [if user is None: return]: find_user_by has raised in that case *)
  src <- lift (update_source kwargs) ;;
  us <- rows ;;
  execute UPDATE ;;;
  us' <- lift (query_update user_id src us) ;;
  store us'.

End WithLibs.
End DB.

(** ** encrypt_password.py *)

Section EncryptPassword.
Context {L : Libs}.

Definition hash_password (password : string) : M bytes :=
  n <- draw ;;
  lift (hashpw (encode_utf8 password) (gensalt n)).

Definition is_valid (hashed_password : bytes) (password : string)
  : Result bool :=
  checkpw (encode_utf8 password) hashed_password.

End EncryptPassword.

(** ** auth.py *)

Module Auth.
Section WithLibs.
Context {L : Libs}.

Definition _hash_password (password : string) : M bytes :=
  n <- draw ;;
  lift (hashpw (encode_utf8 password) (gensalt n)).

Definition _generate_uuid : M string :=
  n <- draw ;;
  ret (uuid4 n).

(** [user = None; try: user = find_user_by(...) except NoResultFound: ...]
    with a handler that leaves or returns [None]. *)
Definition lookup (criteria : list kwarg) : M (option User) :=
  try_except_NoResultFound
    (user <- DB.find_user_by criteria ;; ret (Some user))
    (ret None).

Definition register_user (email password : string) : M (option User) :=
  returned <-
    try_except_NoResultFound
      (DB.find_user_by [kw_email email] ;;; ret None)
      (hashed <- _hash_password password ;;
       new_user <- DB.add_user email hashed ;;
       ret (Some new_user)) ;;
  match returned with
  | Some new_user => ret new_user
  | None => raise ValueError
  end.

Definition valid_login (email password : string) : M bool :=
  try_except_NoResultFound
    (user <- DB.find_user_by [kw_email email] ;;
     lift (checkpw (encode_utf8 password) (hashed_password user)))
    (ret false).

Definition create_session (email : string) : M (option string) :=
  user <- lookup [kw_email email] ;;
  match user with
  | None => ret None
  | Some user =>
      session_id <- _generate_uuid ;;
      DB.update_user (id user) [kw_session_id (Some session_id)] ;;;
      ret (Some session_id)
  end.

Definition get_user_from_session_id (session_id : option string)
  : M (option User) :=
  match session_id with
  | None => ret None
  | Some _ => lookup [kw_session_id session_id]
  end.

Definition destroy_session (user_id : option Z) : M unit :=
  match user_id with
  | None => ret tt
  | Some user_id => DB.update_user user_id [kw_session_id None]
  end.

Definition get_reset_password_token (email : string) : M string :=
  user <- lookup [kw_email email] ;;
  match user with
  | None => raise ValueError
  | Some user =>
      reset_token <- _generate_uuid ;;
      DB.update_user (id user) [kw_reset_token (Some reset_token)] ;;;
      ret reset_token
  end.

Definition update_password (reset_token password : string) : M unit :=
  user <- lookup [kw_reset_token (Some reset_token)] ;;
  match user with
  | None => raise ValueError
  | Some user =>
      new_password_hash <- _hash_password password ;;
      DB.update_user (id user)
        [kw_hashed_password new_password_hash; kw_reset_token None]
  end.

End WithLibs.
End Auth.

(** ** What the theorems ask of the libraries *)

(** bcrypt: a generated salt is accepted, and a password checks against
    the hash made from it. *)
Class BcryptContract (L : Libs) : Prop := {
  hashpw_gensalt : forall pw n, exists h, hashpw pw (gensalt n) = Ret h;
  checkpw_hashpw :
    forall pw n h, hashpw pw (gensalt n) = Ret h -> checkpw pw h = Ret true
}.

(** uuid4: no identifier is drawn twice. *)
Class UuidContract (L : Libs) : Prop := {
  uuid4_inj : forall i j : nat, uuid4 i = uuid4 j -> i = j
}.

(** ** The states an [Auth] object goes through *)

Inductive Call : Type :=
| call_register_user (email password : string)
| call_valid_login (email password : string)
| call_create_session (email : string)
| call_get_user_from_session_id (session_id : option string)
| call_destroy_session (user_id : option Z)
| call_get_reset_password_token (email : string)
| call_update_password (reset_token password : string).

Definition after {L : Libs} (c : Call) (w : World) : World :=
  match c with
  | call_register_user e p => snd (Auth.register_user e p w)
  | call_valid_login e p => snd (Auth.valid_login e p w)
  | call_create_session e => snd (Auth.create_session e w)
  | call_get_user_from_session_id s => snd (Auth.get_user_from_session_id s w)
  | call_destroy_session i => snd (Auth.destroy_session i w)
  | call_get_reset_password_token e => snd (Auth.get_reset_password_token e w)
  | call_update_password t p => snd (Auth.update_password t p w)
  end.

(** [Auth()] starts from the empty table; the state then changes through
    the methods of [Auth] only, whether they return or raise. *)
Inductive Reachable {L : Libs} : World -> Prop :=
| reach_init (seed : nat) : Reachable (init seed)
| reach_call (w : World) (c : Call) : Reachable w -> Reachable (after c w).

(** The rows [update_user] rewrites. *)
Definition touch (user_id : Z) (f : User -> User) (us : list User)
  : list User :=
  map (fun u => if id u =? user_id then f u else u) us.

Definition matching (criteria : list kwarg) (u : User) : bool :=
  forallb (DB.holds u) criteria.

Definition keeps_id (src : list kwarg) : bool :=
  forallb (fun k => match k with kw_id _ => false | _ => true end) src.

Definition logged (ss : list Stmt) (w : World) : World :=
  mkWorld (users w) (ss ++ statements w) (entropy w).

(** The rows the methods of [Auth] write: [u] with the two columns of
    [update_password], with a session id, with a reset token. *)
Definition with_password (h : bytes) (u : User) : User :=
  mkUser (id u) (email u) h (session_id u) None.

Definition with_session (s : option string) (u : User) : User :=
  mkUser (id u) (email u) (hashed_password u) s (reset_token u).

Definition with_reset (t : option string) (u : User) : User :=
  mkUser (id u) (email u) (hashed_password u) (session_id u) t.

(** The invariant of the reachable states: ids and emails are unique,
    every stored token was drawn from [uuid4] earlier, and no two rows
    share a session id or a reset token. *)
Definition issued {L : Libs} (proj : User -> option string) (w : World)
  : Prop :=
  forall u s, In u (users w) -> proj u = Some s ->
              exists n, (n < entropy w)%nat /\ s = uuid4 n.

Definition exclusive (proj : User -> option string) (us : list User) : Prop :=
  forall u v s, In u us -> In v us -> proj u = Some s -> proj v = Some s ->
                u = v.

Record Inv {L : Libs} (w : World) : Prop := {
  inv_ids : NoDup (map id (users w));
  inv_emails : NoDup (map email (users w));
  inv_sessions : issued session_id w;
  inv_resets : issued reset_token w;
  inv_session_exclusive : exclusive session_id (users w);
  inv_reset_exclusive : exclusive reset_token (users w)
}.

(** ** Outcomes *)

Definition returns {A} (m : M A) (w : World) (a : A) (w' : World) : Prop :=
  m w = (Ret a, w').

Definition raises {A} (m : M A) (w : World) (e : Exception) (w' : World)
  : Prop :=
  m w = (Raise e, w').

(** What a rewrite of rows may do to a token column: keep it, null it,
    or set it to the identifier drawn now. *)
Definition gentle {L : Libs} (proj : User -> option string) (f : User -> User)
  (w : World) (n' : nat) : Prop :=
  forall u, proj (f u) = proj u \/ proj (f u) = None \/
            (proj (f u) = Some (uuid4 (entropy w)) /\ (entropy w < n')%nat).

(** ** A reference instance of the libraries

    Used to instantiate the theorems at concrete inputs.  A hash is the
    salt, a colon and the password; a salt must start with [$2b$], and
    anything else is refused with [ValueError] as bcrypt refuses an
    invalid salt. *)

Module Reference.

Definition magic : bytes := [x24; x32; x62; x24].

Fixpoint salt_of (h : bytes) : bytes :=
  match h with
  | [] => []
  | b :: rest => if Byte.eqb b x3a then [] else b :: salt_of rest
  end.

Definition ref_gensalt (n : nat) : bytes := magic ++ repeat x61 n.

Definition ref_hashpw (pw salt : bytes) : Result bytes :=
  if bytes_eqb (firstn 4 salt) magic
  then Ret (salt_of salt ++ x3a :: pw)
  else Raise ValueError.

Definition ref_checkpw (pw hashed : bytes) : Result bool :=
  match ref_hashpw pw hashed with
  | Ret h => Ret (bytes_eqb h hashed)
  | Raise e => Raise e
  end.

Definition ref_uuid4 (n : nat) : string :=
  NilEmpty.string_of_uint (Nat.to_uint n).

Definition libs : Libs := {|
  gensalt := ref_gensalt;
  hashpw := ref_hashpw;
  checkpw := ref_checkpw;
  uuid4 := ref_uuid4;
  class_attr := fun name => String.eqb name "__tablename__";
  query_other := fun _ _ => Raise (LibraryError "ArgumentError");
  update_other := fun _ _ _ => Raise (LibraryError "ArgumentError")
|}.

End Reference.

(** ** A scenario under the reference libraries

    One account is registered, logs in, and asks for a reset token. *)

Module Scenario.

Definition w0 : World := init 0.

Definition w1 : World :=
  after (L := Reference.libs) (call_register_user "a@b.com" "pw1") w0.

Definition w2 : World :=
  after (L := Reference.libs) (call_create_session "a@b.com") w1.

Definition w3 : World :=
  after (L := Reference.libs) (call_get_reset_password_token "a@b.com") w2.

Definition pw1_hash : bytes :=
  Reference.ref_gensalt 0 ++ x3a :: encode_utf8 "pw1".

Definition alice1 : User := mkUser 1 "a@b.com" pw1_hash None None.
Definition alice2 : User := with_session (Some "1") alice1.
Definition alice3 : User := with_reset (Some "2") alice2.

(** A row whose hash column holds something bcrypt did not make. *)
Definition foreign_hash : bytes := encode_utf8 "not-a-hash".

Definition w_foreign : World :=
  mkWorld [mkUser 1 "a@b.com" foreign_hash None None] [] 0.

End Scenario.

(** ** Constructors

    [DB.__init__] creates the engine on the one file [a.db], drops and
    recreates the table and forgets the session; [Auth.__init__] builds
    a [DB()]. *)

Module Constructor.



End Constructor.

(** No session id is a reset token. *)
Definition apart (us : list User) : Prop :=
  forall u v s, In u us -> In v us ->
                session_id u = Some s -> reset_token v = Some s -> False.

(** ** Reference libraries with a bcrypt that refuses long passwords

    As [Reference.libs], but [hashpw] raises [ValueError] for a password
    of more than 72 bytes. *)

Module StrictReference.

Definition strict_hashpw (pw salt : bytes) : Result bytes :=
  if (72 <? List.length pw)%nat then Raise ValueError
  else Reference.ref_hashpw pw salt.

Definition libs : Libs := {|
  gensalt := Reference.ref_gensalt;
  hashpw := strict_hashpw;
  checkpw := Reference.ref_checkpw;
  uuid4 := Reference.ref_uuid4;
  class_attr := fun name => String.eqb name "__tablename__";
  query_other := fun _ _ => Raise (LibraryError "ArgumentError");
  update_other := fun _ _ _ => Raise (LibraryError "ArgumentError")
|}.

(** A password of 73 bytes. *)
Definition long_password : string :=
  string_of_list_ascii (repeat "a"%char 73).

End StrictReference.

(** ** A second scenario: two accounts, the first one logged in *)

Module Scenario2.

Definition w4 : World :=
  after (L := Reference.libs) (call_register_user "c@d.com" "pw9")
        Scenario.w2.

Definition carol : User :=
  mkUser 2 "c@d.com" (Reference.ref_gensalt 2 ++ x3a :: encode_utf8 "pw9")
         None None.

(** A table with a pending reset token, under any libraries. *)
Definition w_pending : World :=
  mkWorld [mkUser 1 "a@b.com" Scenario.foreign_hash None (Some "tok")] [] 0.

End Scenario2.

(** ** api/v1/auth/auth.py: [Auth.require_auth]

    The method is the same in [0x01-Basic_authentication] and
    [0x02-Session_authentication].  A [str] is again the byte string of
    its UTF-8 encoding; [re.match] is a parameter. *)

Module ApiAuth.

Inductive Raised : Type :=
| IndexError     (* string index out of range *)
| ReError.       (* re.error: the pattern does not compile *)

Class Re : Type := {
  (** [bool(re.match(pattern, string))] *)
  re_match : string -> string -> Raised + bool
}.

Definition byte_in (lo hi : nat) (c : ascii) : bool :=
  (lo <=? nat_of_ascii c)%nat && (nat_of_ascii c <=? hi)%nat.

Definition byte_is (n : nat) (c : ascii) : bool := byte_in n n c.

(** The characters [str.strip()] removes, by their UTF-8 encodings:
    U+0009-000D, U+001C-0020; U+0085, U+00A0; U+1680, U+2000-200A,
    U+2028, U+2029, U+202F, U+205F, U+3000. *)
Definition space1 (a : ascii) : bool :=
  byte_in 9 13 a || byte_in 28 32 a.

Definition space2 (a b : ascii) : bool :=
  byte_is 194 a && (byte_is 133 b || byte_is 160 b).

Definition space3 (a b c : ascii) : bool :=
  (byte_is 225 a && byte_is 154 b && byte_is 128 c)
  || (byte_is 226 a && byte_is 128 b
      && (byte_in 128 138 c || byte_is 168 c || byte_is 169 c
          || byte_is 175 c))
  || (byte_is 226 a && byte_is 129 b && byte_is 159 c)
  || (byte_is 227 a && byte_is 128 b && byte_is 128 c).

(** Leading whitespace off, for the given one-, two- and three-byte
    tests. *)
Fixpoint lstrip_with (s1 : ascii -> bool) (s2 : ascii -> ascii -> bool)
  (s3 : ascii -> ascii -> ascii -> bool) (s : list ascii) : list ascii :=
  match s with
  | [] => []
  | a :: r1 =>
      if s1 a then lstrip_with s1 s2 s3 r1
      else match r1 with
           | [] => s
           | b :: r2 =>
               if s2 a b then lstrip_with s1 s2 s3 r2
               else match r2 with
                    | [] => s
                    | c :: r3 =>
                        if s3 a b c then lstrip_with s1 s2 s3 r3 else s
                    end
           end
  end.

Definition lstrip (s : list ascii) : list ascii :=
  lstrip_with space1 space2 space3 s.

(** Trailing whitespace off: the same scan over the reversed bytes. *)
Definition rstrip (s : list ascii) : list ascii :=
  rev (lstrip_with space1 (fun a b => space2 b a)
                   (fun a b c => space3 c b a) (rev s)).

(** [x.strip()] *)
Definition strip (x : string) : string :=
  string_of_list_ascii (rstrip (lstrip (list_ascii_of_string x))).

(** [s[-1]]: the last character decides between an asterisk, a slash
    and anything else, which its last byte does. *)
Definition last_char (s : string) : option ascii :=
  match rev (list_ascii_of_string s) with
  | [] => None
  | c :: _ => Some c
  end.

(** [s[0:-1]] for [s] ending in a one-byte character *)
Definition drop_last (s : string) : string :=
  string_of_list_ascii (removelast (list_ascii_of_string s)).

(** The body of the loop up to [re.match]: the pattern for one stripped
    exclusion path. *)
Definition pattern_of (exclusion_path : string) : Raised + string :=
  match last_char exclusion_path with
  | None => inl IndexError
  | Some c =>
      if Ascii.eqb c "*"
      then inr (drop_last exclusion_path ++ ".*")%string
      else if Ascii.eqb c "/"
      then inr (drop_last exclusion_path ++ "/*")%string
      else inr (exclusion_path ++ "/*")%string
  end.

Section WithRe.
Context {R : Re}.

Fixpoint for_exclusion_path (path : string) (excluded_paths : list string)
  : Raised + bool :=
  match excluded_paths with
  | [] => inr true
  | x :: rest =>
      match pattern_of (strip x) with
      | inl e => inl e
      | inr pattern =>
          match re_match pattern path with
          | inl e => inl e
          | inr true => inr false
          | inr false => for_exclusion_path path rest
          end
      end
  end.

Definition require_auth (path : option string)
  (excluded_paths : option (list string)) : Raised + bool :=
  match path, excluded_paths with
  | Some path, Some excluded_paths => for_exclusion_path path excluded_paths
  | _, _ => inr true
  end.

End WithRe.

(** The characters with a meaning of their own in a pattern. *)
Definition metachars : list ascii :=
  list_ascii_of_string ".^$*+?{}[]\|()".

Definition literal (s : string) : bool :=
  forallb (fun c => negb (existsb (Ascii.eqb c) metachars))
          (list_ascii_of_string s).

(** What the theorems ask of [re.match]: a pattern made of literal
    characters followed by [.*] or by [/*] matches the strings that
    start with those characters. *)
Class ReContract (R : Re) : Prop := {
  match_dot_star :
    forall stem s, literal stem = true ->
      re_match (stem ++ ".*")%string s = inr (String.prefix stem s);
  match_slash_star :
    forall stem s, literal stem = true ->
      re_match (stem ++ "/*")%string s = inr (String.prefix stem s)
}.

(** The exclusion path without a final asterisk or slash. *)
Definition stem (exclusion_path : string) : string :=
  match last_char exclusion_path with
  | Some c =>
      if Ascii.eqb c "*" || Ascii.eqb c "/"
      then drop_last exclusion_path else exclusion_path
  | None => exclusion_path
  end.

(** A reference [re.match] for the two pattern shapes [require_auth]
    builds; used to instantiate the theorems. *)
Definition ref_re_match (pattern s : string) : Raised + bool :=
  match rev (list_ascii_of_string pattern) with
  | c2 :: c1 :: r =>
      if Ascii.eqb c2 "*" && (Ascii.eqb c1 "." || Ascii.eqb c1 "/")
      then inr (String.prefix (string_of_list_ascii (rev r)) s)
      else inl ReError
  | _ => inl ReError
  end.

Definition ref_re : Re := {| re_match := ref_re_match |}.

End ApiAuth.

(** ** The integers SQLite holds, the passwords bcrypt hashes *)

(** A signed 64-bit integer: the range of a rowid, and of an [int]
    sqlite3 can bind as a parameter. *)
Definition int64 (v : Z) : bool := (- 2 ^ 63 <=? v) && (v <? 2 ^ 63).

(** The largest rowid. *)
Definition max_rowid : Z := 2 ^ 63 - 1.

(** Criteria whose ids sqlite3 can bind. *)
Definition bindable (kwargs : list kwarg) : bool :=
  forallb (fun k => match k with kw_id v => int64 v | _ => true end) kwargs.

(** bcrypt, without the promise that every password is hashed: a
    password checks against a hash made from it. *)
Class BcryptChecks (L : Libs) : Prop := {
  checks_own_hash :
    forall pw n h, hashpw pw (gensalt n) = Ret h -> checkpw pw h = Ret true
}.

(** A password bcrypt hashes, whatever the salt drawn. *)
Definition accepted {L : Libs} (p : string) : Prop :=
  forall n, exists h, hashpw (encode_utf8 p) (gensalt n) = Ret h.

(** ** The first scenario under the bcrypt that refuses long passwords *)

Module Scenario3.

Definition w1 : World :=
  after (L := StrictReference.libs) (call_register_user "a@b.com" "pw1")
        Scenario.w0.

Definition w2 : World :=
  after (L := StrictReference.libs) (call_create_session "a@b.com") w1.

Definition w3 : World :=
  after (L := StrictReference.libs)
        (call_get_reset_password_token "a@b.com") w2.

End Scenario3.

(** * Lemmas *)

(** ** The reference libraries meet the contracts *)

Lemma bytes_eqb_refl (a : bytes) : bytes_eqb a a = true.
Proof. unfold bytes_eqb. destruct (list_eq_dec _ a a); congruence. Qed.

Module ReferenceFacts.
Import Reference.

Lemma salt_of_plain (s : bytes) :
  Forall (fun b => Byte.eqb b x3a = false) s -> salt_of s = s.
Proof.
  induction 1 as [|b s Hb _ IH]; simpl; [reflexivity|].
  rewrite Hb, IH. reflexivity.
Qed.

Lemma salt_of_colon (s rest : bytes) :
  Forall (fun b => Byte.eqb b x3a = false) s ->
  salt_of (s ++ x3a :: rest) = s.
Proof.
  induction 1 as [|b s Hb _ IH]; simpl; [reflexivity|].
  rewrite Hb, IH. reflexivity.
Qed.

Lemma gensalt_plain (n : nat) :
  Forall (fun b => Byte.eqb b x3a = false) (ref_gensalt n).
Proof.
  unfold ref_gensalt, magic. repeat (constructor; [reflexivity|]).
  induction n; simpl; constructor; auto.
Qed.

Lemma ref_hashpw_gensalt (pw : bytes) (n : nat) :
  ref_hashpw pw (ref_gensalt n) = Ret (ref_gensalt n ++ x3a :: pw).
Proof.
  unfold ref_hashpw. rewrite (salt_of_plain _ (gensalt_plain n)).
  reflexivity.
Qed.

Lemma ref_checkpw_hashpw (pw : bytes) (n : nat) :
  ref_checkpw pw (ref_gensalt n ++ x3a :: pw) = Ret true.
Proof.
  unfold ref_checkpw, ref_hashpw.
  rewrite (salt_of_colon _ pw (gensalt_plain n)).
  replace (bytes_eqb (firstn 4 _) magic) with true by reflexivity.
  rewrite bytes_eqb_refl. reflexivity.
Qed.

Lemma bcrypt : BcryptContract libs.
Proof.
  split; simpl.
  - intros pw n. eexists. apply ref_hashpw_gensalt.
  - intros pw n h. rewrite ref_hashpw_gensalt. intros [= <-].
    apply ref_checkpw_hashpw.
Qed.

Lemma uuid : UuidContract libs.
Proof.
  split; simpl. unfold ref_uuid4. intros i j H.
  assert (E : Some (Nat.to_uint i) = Some (Nat.to_uint j)).
  { rewrite <- !NilEmpty.usu. now rewrite H. }
  injection E as E.
  rewrite <- (DecimalNat.Unsigned.of_to i), <- (DecimalNat.Unsigned.of_to j).
  now rewrite E.
Qed.

End ReferenceFacts.

(** The two bcrypt contracts, and the reference libraries. *)
Lemma contract_checks {L : Libs} : BcryptContract L -> BcryptChecks L.
Proof. intros B. split. apply checkpw_hashpw. Qed.

Lemma contract_accepted {L : Libs} (p : string) :
  BcryptContract L -> accepted p.
Proof. intros B n. apply hashpw_gensalt. Qed.

Lemma reference_checks : BcryptChecks Reference.libs.
Proof. exact (contract_checks ReferenceFacts.bcrypt). Qed.

Lemma strict_checks : BcryptChecks StrictReference.libs.
Proof.
  split. simpl. unfold StrictReference.strict_hashpw. intros pw n h.
  destruct (72 <? List.length pw)%nat; [discriminate|].
  rewrite ReferenceFacts.ref_hashpw_gensalt. intros [= <-].
  apply ReferenceFacts.ref_checkpw_hashpw.
Qed.

Lemma strict_uuid : UuidContract StrictReference.libs.
Proof. split. exact (@uuid4_inj _ ReferenceFacts.uuid). Qed.

(** ** db.py: what the methods compute *)

Section DBFacts.
Context {L : Libs}.

Lemma hasattr_column (k : kwarg) :
  is_column k = true -> DB.hasattr_User (key k) = true.
Proof. destruct k; simpl; intros H; try reflexivity; discriminate. Qed.

Lemma mapped_columns (kwargs : list kwarg) :
  DB.mapped kwargs = true -> forallb is_column kwargs = true.
Proof. destruct kwargs; simpl; [discriminate|auto]. Qed.

Lemma fields_values_columns (kwargs : list kwarg) :
  forallb is_column kwargs = true -> DB.fields_values kwargs = Ret kwargs.
Proof.
  induction kwargs as [|k rest IH]; simpl; [reflexivity|].
  intros H. apply andb_prop in H as [Hk Hrest].
  rewrite (hasattr_column k Hk), (IH Hrest). reflexivity.
Qed.

Lemma update_source_columns (kwargs : list kwarg) :
  forallb is_column kwargs = true -> DB.update_source kwargs = Ret kwargs.
Proof.
  induction kwargs as [|k rest IH]; simpl; [reflexivity|].
  intros H. apply andb_prop in H as [Hk Hrest].
  rewrite (hasattr_column k Hk), (IH Hrest). reflexivity.
Qed.

(** A key that [User] lacks stops the loop, wherever it stands. *)
Lemma fields_values_invalid (kwargs : list kwarg) :
  (exists k, In k kwargs /\ DB.hasattr_User (key k) = false) ->
  DB.fields_values kwargs = Raise InvalidRequestError.
Proof.
  induction kwargs as [|k rest IH]; intros (k0 & Hin & Hk0); [destruct Hin|].
  simpl. destruct (DB.hasattr_User (key k)) eqn:Hk; [|reflexivity].
  destruct Hin as [->|Hin]; [congruence|].
  rewrite IH; [reflexivity|]. exists k0. auto.
Qed.

Lemma find_user_by_eq (criteria : list kwarg) (w : World) :
  DB.mapped criteria = true ->
  DB.find_user_by criteria w =
  (match find (matching criteria) (users w) with
   | Some user => Ret user
   | None => Raise NoResultFound
   end, logged [SELECT] w).
Proof.
  intros Hm. unfold DB.find_user_by, bind, lift, rows, execute, DB.query_first.
  rewrite (fields_values_columns _ (mapped_columns _ Hm)), Hm.
  fold (matching criteria).
  destruct (find (matching criteria) (users w)); reflexivity.
Qed.

Lemma set_columns_id (src : list kwarg) (u : User) :
  keeps_id src = true -> id (DB.set_columns src u) = id u.
Proof.
  unfold DB.set_columns. revert u.
  induction src as [|k rest IH]; simpl; intros u H; [reflexivity|].
  apply andb_prop in H as [Hk Hrest]. rewrite (IH _ Hrest).
  destruct k; simpl; try reflexivity; discriminate.
Qed.

Lemma touch_ids (user_id : Z) (f : User -> User) (us : list User) :
  (forall u, id (f u) = id u) -> map id (touch user_id f us) = map id us.
Proof.
  intros Hf. unfold touch. rewrite map_map. apply map_ext.
  intros u. destruct (id u =? user_id); auto.
Qed.

Lemma touch_emails (user_id : Z) (f : User -> User) (us : list User) :
  (forall u, email (f u) = email u) ->
  map email (touch user_id f us) = map email us.
Proof.
  intros Hf. unfold touch. rewrite map_map. apply map_ext.
  intros u. destruct (id u =? user_id); auto.
Qed.

Lemma in_touch (user_id : Z) (f : User -> User) (us : list User) (v : User) :
  In v (touch user_id f us) <->
  exists u, In u us /\ v = if id u =? user_id then f u else u.
Proof.
  unfold touch. rewrite in_map_iff. split; intros (u & A & B); exists u.
  - split; [exact B | symmetry; exact A].
  - split; [symmetry; exact B | exact A].
Qed.

Lemma update_user_eq (user_id : Z) (src : list kwarg) (w : World) :
  DB.mapped src = true -> keeps_id src = true ->
  DB.update_user user_id src w =
  match find (matching [kw_id user_id]) (users w) with
  | Some _ =>
      (Ret tt, mkWorld (touch user_id (DB.set_columns src) (users w))
                       (UPDATE :: SELECT :: statements w) (entropy w))
  | None => (Raise NoResultFound, logged [SELECT] w)
  end.
Proof.
  intros Hm Hk. unfold DB.update_user, bind at 1.
  rewrite find_user_by_eq by reflexivity.
  destruct (find (matching [kw_id user_id]) (users w)); [|reflexivity].
  unfold bind, lift, rows, execute, store, DB.query_update, logged. simpl.
  rewrite (update_source_columns _ (mapped_columns _ Hm)), Hm.
  fold (touch user_id (DB.set_columns src) (users w)).
  unfold DB.same_ids.
  rewrite touch_ids by (intros; apply set_columns_id; exact Hk).
  destruct (list_eq_dec Z.eq_dec _ _) as [_|N]; [reflexivity|].
  now destruct N.
Qed.

Lemma add_user_eq (e : string) (h : bytes) (w : World) :
  DB.add_user e h w =
  let new_user := mkUser (DB.next_rowid (users w)) e h None None in
  (Ret (Some new_user),
   mkWorld (users w ++ [new_user]) (INSERT :: statements w) (entropy w)).
Proof. reflexivity. Qed.

End DBFacts.

(** ** auth.py: what the methods compute *)

Section AuthFacts.
Context {L : Libs}.

Lemma matching_id (user_id : Z) (u : User) :
  matching [kw_id user_id] u = true <-> id u = user_id.
Proof.
  unfold matching. simpl. rewrite andb_true_r. apply Z.eqb_eq.
Qed.

Lemma matching_email (e : string) (u : User) :
  matching [kw_email e] u = true <-> email u = e.
Proof.
  unfold matching. simpl. rewrite andb_true_r. apply String.eqb_eq.
Qed.

Lemma matching_session (s : string) (u : User) :
  matching [kw_session_id (Some s)] u = true <-> session_id u = Some s.
Proof.
  unfold matching. simpl. rewrite andb_true_r.
  destruct (session_id u) as [s'|]; simpl.
  - rewrite String.eqb_eq. split; congruence.
  - split; discriminate.
Qed.

Lemma matching_reset (t : string) (u : User) :
  matching [kw_reset_token (Some t)] u = true <-> reset_token u = Some t.
Proof.
  unfold matching. simpl. rewrite andb_true_r.
  destruct (reset_token u) as [t'|]; simpl.
  - rewrite String.eqb_eq. split; congruence.
  - split; discriminate.
Qed.

Lemma find_id_of_member (u : User) (us : list User) :
  In u us -> exists v, find (matching [kw_id (id u)]) us = Some v.
Proof.
  intros Hin. destruct (find _ us) as [v|] eqn:E; [eauto|].
  pose proof (find_none _ _ E u Hin) as N.
  assert (T : matching [kw_id (id u)] u = true) by now apply matching_id.
  congruence.
Qed.

(** [find] returns the one row that satisfies the test. *)
Lemma find_the_one (f : User -> bool) (u : User) (us : list User) :
  In u us -> f u = true ->
  (forall v, In v us -> f v = true -> v = u) ->
  find f us = Some u.
Proof.
  intros Hin Hf Hone. destruct (find f us) as [v|] eqn:E.
  - apply find_some in E as [Hv Hfv]. now rewrite (Hone v Hv Hfv).
  - pose proof (find_none _ _ E u Hin). congruence.
Qed.

Lemma find_no_row (f : User -> bool) (us : list User) :
  (forall v, In v us -> f v = false) -> find f us = None.
Proof.
  intros H. destruct (find f us) as [v|] eqn:E; [|reflexivity].
  apply find_some in E as [Hv Hfv]. rewrite (H v Hv) in Hfv. discriminate.
Qed.

Lemma lookup_eq (criteria : list kwarg) (w : World) :
  DB.mapped criteria = true ->
  Auth.lookup criteria w =
  (Ret (find (matching criteria) (users w)), logged [SELECT] w).
Proof.
  intros Hm. unfold Auth.lookup, try_except_NoResultFound, bind, ret.
  rewrite (find_user_by_eq _ _ Hm).
  destruct (find (matching criteria) (users w)); reflexivity.
Qed.

Lemma update_member_eq (u : User) (src : list kwarg) (w : World) :
  In u (users w) -> DB.mapped src = true -> keeps_id src = true ->
  DB.update_user (id u) src w =
  (Ret tt, mkWorld (touch (id u) (DB.set_columns src) (users w))
                   (UPDATE :: SELECT :: statements w) (entropy w)).
Proof.
  intros Hin Hm Hk. rewrite (update_user_eq _ _ _ Hm Hk).
  destruct (find_id_of_member u _ Hin) as [v ->]. reflexivity.
Qed.

Lemma create_session_eq (e : string) (w : World) :
  Auth.create_session e w =
  match find (matching [kw_email e]) (users w) with
  | None => (Ret None, logged [SELECT] w)
  | Some u =>
      let t := uuid4 (entropy w) in
      (Ret (Some t),
       mkWorld (touch (id u) (with_session (Some t)) (users w))
               (UPDATE :: SELECT :: SELECT :: statements w)
               (S (entropy w)))
  end.
Proof.
  unfold Auth.create_session, bind at 1.
  rewrite lookup_eq by reflexivity.
  destruct (find (matching [kw_email e]) (users w)) as [u|] eqn:E;
    [|reflexivity].
  apply find_some in E as [Hin _].
  unfold Auth._generate_uuid, bind, draw, ret. simpl.
  rewrite (update_member_eq u) by (auto; reflexivity). reflexivity.
Qed.

Lemma get_reset_password_token_eq (e : string) (w : World) :
  Auth.get_reset_password_token e w =
  match find (matching [kw_email e]) (users w) with
  | None => (Raise ValueError, logged [SELECT] w)
  | Some u =>
      let t := uuid4 (entropy w) in
      (Ret t,
       mkWorld (touch (id u) (with_reset (Some t)) (users w))
               (UPDATE :: SELECT :: SELECT :: statements w)
               (S (entropy w)))
  end.
Proof.
  unfold Auth.get_reset_password_token, bind at 1.
  rewrite lookup_eq by reflexivity.
  destruct (find (matching [kw_email e]) (users w)) as [u|] eqn:E;
    [|reflexivity].
  apply find_some in E as [Hin _].
  unfold Auth._generate_uuid, bind, draw, ret. simpl.
  rewrite (update_member_eq u) by (auto; reflexivity). reflexivity.
Qed.

Lemma update_password_eq (t p : string) (w : World) :
  Auth.update_password t p w =
  match find (matching [kw_reset_token (Some t)]) (users w) with
  | None => (Raise ValueError, logged [SELECT] w)
  | Some u =>
      match hashpw (encode_utf8 p) (gensalt (entropy w)) with
      | Ret h =>
          (Ret tt,
           mkWorld (touch (id u) (with_password h) (users w))
                   (UPDATE :: SELECT :: SELECT :: statements w)
                   (S (entropy w)))
      | Raise x =>
          (Raise x,
           mkWorld (users w) (SELECT :: statements w) (S (entropy w)))
      end
  end.
Proof.
  unfold Auth.update_password, bind at 1.
  rewrite lookup_eq by reflexivity.
  destruct (find (matching [kw_reset_token (Some t)]) (users w)) as [u|] eqn:E;
    [|reflexivity].
  apply find_some in E as [Hin _].
  unfold Auth._hash_password, bind, draw, lift. simpl.
  destruct (hashpw (encode_utf8 p) (gensalt (entropy w))) as [h|x];
    [|reflexivity].
  rewrite (update_member_eq u) by (auto; reflexivity). reflexivity.
Qed.

Lemma register_user_eq (e p : string) (w : World) :
  Auth.register_user e p w =
  match find (matching [kw_email e]) (users w) with
  | Some _ => (Raise ValueError, logged [SELECT] w)
  | None =>
      match hashpw (encode_utf8 p) (gensalt (entropy w)) with
      | Ret h =>
          let new_user := mkUser (DB.next_rowid (users w)) e h None None in
          (Ret (Some new_user),
           mkWorld (users w ++ [new_user])
                   (INSERT :: SELECT :: statements w) (S (entropy w)))
      | Raise x =>
          (Raise x,
           mkWorld (users w) (SELECT :: statements w) (S (entropy w)))
      end
  end.
Proof.
  unfold Auth.register_user, bind at 1, try_except_NoResultFound, bind at 1.
  rewrite find_user_by_eq by reflexivity.
  destruct (find (matching [kw_email e]) (users w)); [reflexivity|].
  unfold Auth._hash_password, bind, draw, lift. simpl.
  destruct (hashpw (encode_utf8 p) (gensalt (entropy w))); reflexivity.
Qed.

Lemma valid_login_eq (e p : string) (w : World) :
  Auth.valid_login e p w =
  (match find (matching [kw_email e]) (users w) with
   | None => Ret false
   | Some u =>
       match checkpw (encode_utf8 p) (hashed_password u) with
       | Raise NoResultFound => Ret false
       | r => r
       end
   end, logged [SELECT] w).
Proof.
  unfold Auth.valid_login, try_except_NoResultFound, bind at 1.
  rewrite find_user_by_eq by reflexivity.
  destruct (find (matching [kw_email e]) (users w)) as [u|]; [|reflexivity].
  unfold lift. destruct (checkpw _ _) as [b|[]]; reflexivity.
Qed.

Lemma get_user_from_session_id_eq (s : string) (w : World) :
  Auth.get_user_from_session_id (Some s) w =
  (Ret (find (matching [kw_session_id (Some s)]) (users w)),
   logged [SELECT] w).
Proof. unfold Auth.get_user_from_session_id. now rewrite lookup_eq. Qed.

Lemma destroy_session_eq (user_id : Z) (w : World) :
  Auth.destroy_session (Some user_id) w =
  match find (matching [kw_id user_id]) (users w) with
  | Some _ =>
      (Ret tt,
       mkWorld (touch user_id (with_session None) (users w))
               (UPDATE :: SELECT :: statements w) (entropy w))
  | None => (Raise NoResultFound, logged [SELECT] w)
  end.
Proof.
  unfold Auth.destroy_session. now rewrite update_user_eq.
Qed.

End AuthFacts.

(** ** The invariant holds in every reachable state *)

Section Invariant.
Context {L : Libs} {U : UuidContract L}.

Lemma NoDup_map_eq {A B} (g : A -> B) (l : list A) (a b : A) :
  NoDup (map g l) -> In a l -> In b l -> g a = g b -> a = b.
Proof.
  induction l as [|x l IH]; simpl; intros Hnd Ha Hb E; [contradiction|].
  inversion Hnd as [|? ? Hx Hl]; subst.
  destruct Ha as [->|Ha], Hb as [->|Hb]; auto.
  - exfalso. apply Hx. rewrite E. now apply in_map.
  - exfalso. apply Hx. rewrite <- E. now apply in_map.
Qed.

Lemma fold_max_above (i : Z) (rest : list Z) (x : Z) :
  In x (i :: rest) -> x <= fold_right Z.max i rest.
Proof.
  induction rest as [|y rest IH]; simpl.
  - intros [->|[]]. lia.
  - intros [->|[->|H]].
    + specialize (IH (or_introl eq_refl)). lia.
    + lia.
    + specialize (IH (or_intror H)). lia.
Qed.

Lemma next_rowid_above (us : list User) (u : User) :
  In u us -> id u < DB.next_rowid us.
Proof.
  intros Hin. apply (in_map id) in Hin. unfold DB.next_rowid.
  destruct (map id us) as [|i rest]; [contradiction|].
  pose proof (fold_max_above i rest _ Hin). lia.
Qed.

Lemma issued_touch proj f w user_id st n' :
  issued proj w -> (entropy w <= n')%nat -> gentle proj f w n' ->
  issued proj (mkWorld (touch user_id f (users w)) st n').
Proof.
  intros Hi Hle Hg v s Hv Hs. simpl in *.
  apply in_touch in Hv as (u & Hu & ->).
  destruct (id u =? user_id).
  - destruct (Hg u) as [E|[E|[E Hlt]]]; rewrite E in Hs.
    + destruct (Hi u s Hu Hs) as (n & Hn & ->). exists n. split; [lia|auto].
    + discriminate.
    + injection Hs as <-. eauto.
  - destruct (Hi u s Hu Hs) as (n & Hn & ->). exists n. split; [lia|auto].
Qed.

Lemma exclusive_touch proj f w user_id n' :
  NoDup (map id (users w)) -> issued proj w -> exclusive proj (users w) ->
  gentle proj f w n' ->
  exclusive proj (touch user_id f (users w)).
Proof.
  intros Hnd Hi Hx Hg v1 v2 s H1 H2 P1 P2.
  apply in_touch in H1 as (u1 & Hu1 & ->).
  apply in_touch in H2 as (u2 & Hu2 & ->).
  assert (Hfresh : forall u, In u (users w) ->
                             proj u = Some (uuid4 (entropy w)) -> False).
  { intros u Hu E. destruct (Hi u _ Hu E) as (n & Hn & En).
    apply uuid4_inj in En. lia. }
  assert (Hmixed : forall a b, In a (users w) -> In b (users w) ->
            id a = user_id -> id b <> user_id ->
            proj (f a) = Some s -> proj b = Some s -> False).
  { intros a b Ha Hb Ia Ib Pa Pb.
    destruct (Hg a) as [E|[E|[E _]]]; rewrite E in Pa.
    - apply Ib. rewrite <- (Hx a b s Ha Hb Pa Pb). exact Ia.
    - discriminate.
    - injection Pa as <-. exact (Hfresh b Hb Pb). }
  destruct (Z.eqb_spec (id u1) user_id) as [E1|N1],
           (Z.eqb_spec (id u2) user_id) as [E2|N2].
  - now rewrite (NoDup_map_eq id _ u1 u2 Hnd Hu1 Hu2) by congruence.
  - destruct (Hmixed u1 u2 Hu1 Hu2 E1 N2 P1 P2).
  - destruct (Hmixed u2 u1 Hu2 Hu1 E2 N1 P2 P1).
  - exact (Hx u1 u2 s Hu1 Hu2 P1 P2).
Qed.

Lemma Inv_init (seed : nat) : Inv (init seed).
Proof.
  split; simpl; try constructor; intros ? ? ? []; contradiction.
Qed.

Lemma Inv_same_rows (w w' : World) :
  Inv w -> users w' = users w -> (entropy w <= entropy w')%nat -> Inv w'.
Proof.
  intros [A B C D E F] Hu Hle. split; rewrite ?Hu; auto.
  - intros u s Hin Hs. rewrite Hu in Hin.
    destruct (C u s Hin Hs) as (n & Hn & ->). exists n. split; [lia|auto].
  - intros u s Hin Hs. rewrite Hu in Hin.
    destruct (D u s Hin Hs) as (n & Hn & ->). exists n. split; [lia|auto].
Qed.

Lemma Inv_touch (w : World) user_id (f : User -> User) st n' :
  Inv w -> (entropy w <= n')%nat ->
  (forall u, id (f u) = id u) -> (forall u, email (f u) = email u) ->
  gentle session_id f w n' -> gentle reset_token f w n' ->
  Inv (mkWorld (touch user_id f (users w)) st n').
Proof.
  intros [A B C D E F] Hle Hid Hem Gs Gr. split; simpl.
  - now rewrite touch_ids.
  - now rewrite touch_emails.
  - now apply issued_touch.
  - now apply issued_touch.
  - now apply (exclusive_touch _ _ w _ n').
  - now apply (exclusive_touch _ _ w _ n').
Qed.

Lemma Inv_add (w : World) (e : string) (h : bytes) st n' :
  Inv w -> (entropy w <= n')%nat ->
  find (matching [kw_email e]) (users w) = None ->
  Inv (mkWorld (users w ++ [mkUser (DB.next_rowid (users w)) e h None None])
               st n').
Proof.
  intros [A B C D E F] Hle Hnone.
  set (new_user := mkUser _ e h None None).
  assert (Hnew : forall proj : User -> option string, proj new_user = None ->
            forall u s, In u (users w ++ [new_user]) -> proj u = Some s ->
                        In u (users w)).
  { intros proj Hp u s Hin Hs. apply in_app_or in Hin as [Hin|[<-|[]]]; auto.
    congruence. }
  split; simpl.
  - rewrite map_app. simpl. apply NoDup_app; auto.
    + repeat constructor. intros [].
    + intros x Hx [<-|[]]. apply in_map_iff in Hx as (u & Hu & Hin).
      pose proof (next_rowid_above _ _ Hin) as Hlt. subst new_user.
      simpl in Hu. rewrite Hu in Hlt. exact (Z.lt_irrefl _ Hlt).
  - rewrite map_app. simpl. apply NoDup_app; auto.
    + repeat constructor. intros [].
    + intros x Hx [<-|[]]. apply in_map_iff in Hx as (u & Hu & Hin).
      pose proof (find_none _ _ Hnone u Hin) as N.
      subst new_user. simpl in Hu. apply matching_email in Hu. congruence.
  - intros u s Hin Hs. pose proof (Hnew session_id eq_refl u s Hin Hs) as Hu.
    destruct (C u s Hu Hs) as (n & Hn & ->). exists n. simpl.
    split; [lia|auto].
  - intros u s Hin Hs. pose proof (Hnew reset_token eq_refl u s Hin Hs) as Hu.
    destruct (D u s Hu Hs) as (n & Hn & ->). exists n. simpl.
    split; [lia|auto].
  - intros u v s Hu Hv Pu Pv.
    apply (E u v s); auto; eapply (Hnew session_id); eauto.
  - intros u v s Hu Hv Pu Pv.
    apply (F u v s); auto; eapply (Hnew reset_token); eauto.
Qed.

End Invariant.

Section Reachability.
Context {L : Libs} {U : UuidContract L}.

Lemma Inv_after (c : Call) (w : World) : Inv w -> Inv (after c w).
Proof.
  intros HI. destruct c as [e p|e p|e|s|i|e|t p]; simpl.
  - rewrite register_user_eq.
    destruct (find (matching [kw_email e]) (users w)) eqn:E.
    + now apply (Inv_same_rows w).
    + destruct (hashpw _ _); simpl.
      * apply Inv_add; auto.
      * apply (Inv_same_rows w); simpl; auto.
  - rewrite valid_login_eq. now apply (Inv_same_rows w).
  - rewrite create_session_eq.
    destruct (find (matching [kw_email e]) (users w)); simpl.
    + apply Inv_touch; auto; intros x; simpl; auto 6 with arith.
    + now apply (Inv_same_rows w).
  - destruct s as [s|]; [|exact HI].
    rewrite get_user_from_session_id_eq. now apply (Inv_same_rows w).
  - destruct i as [i|]; [|exact HI].
    rewrite destroy_session_eq.
    destruct (find (matching [kw_id i]) (users w)); simpl.
    + apply Inv_touch; auto; intros x; simpl; auto 6 with arith.
    + now apply (Inv_same_rows w).
  - rewrite get_reset_password_token_eq.
    destruct (find (matching [kw_email e]) (users w)); simpl.
    + apply Inv_touch; auto; intros x; simpl; auto 6 with arith.
    + now apply (Inv_same_rows w).
  - rewrite update_password_eq.
    destruct (find (matching [kw_reset_token (Some t)]) (users w)); simpl.
    + destruct (hashpw _ _); simpl.
      * apply Inv_touch; auto; intros x; simpl; auto 6 with arith.
      * apply (Inv_same_rows w); simpl; auto.
    + now apply (Inv_same_rows w).
Qed.

Lemma Reachable_Inv (w : World) : Reachable w -> Inv w.
Proof.
  induction 1 as [seed|w c _ IH]; [apply Inv_init | now apply Inv_after].
Qed.

End Reachability.

Section RowFacts.
Context {L : Libs}.

(** Under a unique primary key [touch] rewrites one row. *)
Lemma in_touch_member (u : User) (f : User -> User) (us : list User)
  (v : User) :
  NoDup (map id us) -> In u us ->
  (In v (touch (id u) f us) <->
   v = f u \/ (In v us /\ id v <> id u)).
Proof.
  intros Hnd Hu. rewrite in_touch. split.
  - intros (x & Hx & ->). destruct (Z.eqb_spec (id x) (id u)) as [E|N].
    + left. now rewrite (NoDup_map_eq id us x u Hnd Hx Hu E).
    + right. auto.
  - intros [->|[Hv N]].
    + exists u. now rewrite Z.eqb_refl.
    + exists v. apply Z.eqb_neq in N. now rewrite N.
Qed.

Lemma find_by_email (w : World) (u : User) :
  NoDup (map email (users w)) -> In u (users w) ->
  find (matching [kw_email (email u)]) (users w) = Some u.
Proof.
  intros Hnd Hu. apply find_the_one; auto.
  - now apply matching_email.
  - intros v Hv Hm. apply matching_email in Hm.
    exact (NoDup_map_eq email _ v u Hnd Hv Hu Hm).
Qed.

Lemma find_by_token (proj : User -> option string) (k : option string -> kwarg)
  (us : list User) (u : User) (s : string) :
  (forall x, matching [k (Some s)] x = true <-> proj x = Some s) ->
  exclusive proj us -> In u us -> proj u = Some s ->
  find (matching [k (Some s)]) us = Some u.
Proof.
  intros Hm Hx Hu Hs. apply find_the_one; auto.
  - now apply Hm.
  - intros v Hv Mv. apply Hm in Mv. exact (Hx v u s Hv Hu Mv Hs).
Qed.

Lemma find_no_email (e : string) (us : list User) :
  (forall u, In u us -> email u <> e) ->
  find (matching [kw_email e]) us = None.
Proof.
  intros H. apply find_no_row. intros v Hv.
  destruct (matching [kw_email e] v) eqn:E; [|reflexivity].
  apply matching_email in E. now destruct (H v Hv).
Qed.

Lemma find_no_reset (t : string) (us : list User) :
  (forall u, In u us -> reset_token u <> Some t) ->
  find (matching [kw_reset_token (Some t)]) us = None.
Proof.
  intros H. apply find_no_row. intros v Hv.
  destruct (matching [kw_reset_token (Some t)] v) eqn:E; [|reflexivity].
  apply matching_reset in E. now destruct (H v Hv).
Qed.

Lemma find_no_session (s : string) (us : list User) :
  (forall u, In u us -> session_id u <> Some s) ->
  find (matching [kw_session_id (Some s)]) us = None.
Proof.
  intros H. apply find_no_row. intros v Hv.
  destruct (matching [kw_session_id (Some s)] v) eqn:E; [|reflexivity].
  apply matching_session in E. now destruct (H v Hv).
Qed.

Lemma touch_touch (user_id : Z) (f : User -> User) (us : list User) :
  (forall u, id (f u) = id u) -> (forall u, f (f u) = f u) ->
  touch user_id f (touch user_id f us) = touch user_id f us.
Proof.
  intros Hid Hff. unfold touch. rewrite map_map. apply map_ext. intros u.
  destruct (id u =? user_id) eqn:E.
  - now rewrite Hid, E, Hff.
  - now rewrite E.
Qed.

Lemma find_id_touch (user_id : Z) (f : User -> User) (us : list User)
  (x : User) :
  (forall u, id (f u) = id u) ->
  find (matching [kw_id user_id]) us = Some x ->
  exists y, find (matching [kw_id user_id]) (touch user_id f us) = Some y.
Proof.
  intros Hid E. apply find_some in E as [Hx Mx]. apply matching_id in Mx.
  destruct (find _ (touch user_id f us)) as [y|] eqn:F; [eauto|].
  assert (Hin : In (f x) (touch user_id f us)).
  { apply in_touch. exists x. split; auto.
    apply Z.eqb_eq in Mx. now rewrite Mx. }
  pose proof (find_none _ _ F _ Hin) as N.
  assert (T : matching [kw_id user_id] (f x) = true).
  { apply matching_id. now rewrite Hid. }
  congruence.
Qed.

Lemma not_drawn_yet {U : UuidContract L} (proj : User -> option string)
  (w : World) (v : User) :
  issued proj w -> In v (users w) -> proj v <> Some (uuid4 (entropy w)).
Proof.
  intros Hi Hv E. destruct (Hi v _ Hv E) as (n & Hn & En).
  apply uuid4_inj in En. lia.
Qed.

(** [destroy_session] on the id of a stored user. *)
Lemma destroy_session_clears {U : UuidContract L} (w : World) (u : User) :
  Reachable w -> In u (users w) ->
  exists w',
    returns (Auth.destroy_session (Some (id u))) w tt w' /\
    users w' = touch (id u) (with_session None) (users w) /\
    In (with_session None u) (users w') /\
    (forall t, session_id u = Some t ->
     exists w'',
       returns (Auth.get_user_from_session_id (Some t)) w' None w'').
Proof.
  intros HR Hu.
  pose proof (Reachable_Inv w HR) as [Hid _ _ _ Hx _].
  eexists. unfold returns. rewrite destroy_session_eq.
  destruct (find_id_of_member u _ Hu) as [x ->].
  repeat split.
  - apply (in_touch_member u); auto.
  - intros t Ht. eexists. rewrite get_user_from_session_id_eq. simpl.
    rewrite find_no_session; [reflexivity|].
    intros v Hv. apply (in_touch_member u) in Hv as [->|[Hv N]]; auto.
    + discriminate.
    + intros Sv. apply N. now rewrite (Hx v u t Hv Hu Sv Ht).
Qed.

(** [destroy_session] on the id of a row that holds a session, in any
    table with unique ids and no shared session id. *)
Lemma destroy_session_ends (w : World) (u : User) (t : string) :
  NoDup (map id (users w)) -> exclusive session_id (users w) ->
  In u (users w) -> session_id u = Some t ->
  returns (Auth.get_user_from_session_id (Some t)) w (Some u)
          (logged [SELECT] w) /\
  exists w',
    returns (Auth.destroy_session (Some (id u))) w tt w' /\
    users w' = touch (id u) (with_session None) (users w) /\
    In (with_session None u) (users w') /\
    (forall v, In v (users w) -> v <> u -> In v (users w')) /\
    returns (Auth.get_user_from_session_id (Some t)) w' None
            (logged [SELECT] w').
Proof.
  intros Hid Hx Hu Ht. unfold returns. split.
  - rewrite get_user_from_session_id_eq.
    now rewrite (find_by_token session_id kw_session_id _ u t
                   (matching_session t) Hx Hu Ht).
  - eexists. rewrite destroy_session_eq.
    destruct (find_id_of_member u _ Hu) as [x ->].
    split; [reflexivity|]. split; [reflexivity|]. split; [|split].
    + apply (in_touch_member u); auto.
    + intros v Hv N. apply (in_touch_member u); auto. right. split; auto.
      intros E. apply N. exact (NoDup_map_eq id _ v u Hid Hv Hu E).
    + rewrite get_user_from_session_id_eq, find_no_session; [reflexivity|].
      intros v Hv. simpl in Hv.
      apply (in_touch_member u) in Hv as [->|[Hv N]]; auto.
      * discriminate.
      * intros Sv. apply N. now rewrite (Hx v u t Hv Hu Sv Ht).
Qed.

End RowFacts.

(** * The claims *)

Section Claims.
Context {L : Libs}.

(** C1 (amended).  [update_password(t, p)] on a reachable state.  When
    no stored user has reset token [t] it raises [ValueError] and the
    rows are as before.  When a user [u] has it and bcrypt hashes [p],
    the call returns, having issued one UPDATE that gives [u] the hash of
    [p] and a null reset token, so no row holds [t] any more and a second
    [update_password(t, p')] raises [ValueError] and changes no row.
    When a user has it and bcrypt refuses [p], the call raises what
    bcrypt raised and the rows, the pending token among them, are as
    before. *)
Theorem update_password_consumes_token
  (B : BcryptChecks L) (U : UuidContract L)
  (w : World) (t p : string) :
  Reachable w ->
  ((forall u, In u (users w) -> reset_token u <> Some t) ->
   exists w', raises (Auth.update_password t p) w ValueError w' /\
              users w' = users w) /\
  (forall u, In u (users w) -> reset_token u = Some t ->
   (forall h, hashpw (encode_utf8 p) (gensalt (entropy w)) = Ret h ->
    exists w',
      checkpw (encode_utf8 p) h = Ret true /\
      returns (Auth.update_password t p) w tt w' /\
      users w' = touch (id u) (with_password h) (users w) /\
      In (with_password h u) (users w') /\
      statements w' = UPDATE :: SELECT :: SELECT :: statements w /\
      (forall v, In v (users w') -> reset_token v <> Some t) /\
      (forall p', exists w'',
         raises (Auth.update_password t p') w' ValueError w'' /\
         users w'' = users w')) /\
   (forall x, hashpw (encode_utf8 p) (gensalt (entropy w)) = Raise x ->
    exists w',
      raises (Auth.update_password t p) w x w' /\
      users w' = users w /\ In u (users w'))).
Proof.
  intros HR. pose proof (Reachable_Inv w HR) as [Hid _ _ _ _ Hx]. split.
  - intros Hno. eexists. unfold raises. rewrite update_password_eq.
    rewrite (find_no_reset t _ Hno). split; reflexivity.
  - intros u Hu Ht.
    pose proof (find_by_token reset_token kw_reset_token _ u t
                  (matching_reset t) Hx Hu Ht) as Hfind.
    split.
    + intros h Hh. eexists. unfold returns. rewrite update_password_eq.
      rewrite Hfind, Hh.
      assert (Hgone : forall v,
                In v (touch (id u) (with_password h) (users w)) ->
                reset_token v <> Some t).
      { intros v Hv. apply (in_touch_member u) in Hv as [->|[Hv N]]; auto.
        - discriminate.
        - intros Pv. apply N. now rewrite (Hx v u t Hv Hu Pv Ht). }
      repeat split; auto.
      * exact (checks_own_hash _ _ _ Hh).
      * apply (in_touch_member u); auto.
      * intros p'. eexists. unfold raises. rewrite update_password_eq.
        simpl. rewrite (find_no_reset t _ Hgone). split; reflexivity.
    + intros x Hraise. eexists. unfold raises. rewrite update_password_eq.
      rewrite Hfind, Hraise. repeat split. exact Hu.
Qed.

(** C2.  [create_session(e)] on a reachable state.  When no stored user
    has email [e] it returns [None] and the rows are as before.  When a
    user [u] has it, the call returns a token [t], the row of [u] now
    carries [t] as its session id, and [get_user_from_session_id(t)]
    returns that row. *)
Theorem create_session_resolves (U : UuidContract L)
  (w : World) (e : string) :
  Reachable w ->
  ((forall u, In u (users w) -> email u <> e) ->
   exists w', returns (Auth.create_session e) w None w' /\
              users w' = users w) /\
  (forall u, In u (users w) -> email u = e ->
   exists t w' w'',
     returns (Auth.create_session e) w (Some t) w' /\
     t = uuid4 (entropy w) /\
     users w' = touch (id u) (with_session (Some t)) (users w) /\
     In (with_session (Some t) u) (users w') /\
     returns (Auth.get_user_from_session_id (Some t)) w'
             (Some (with_session (Some t) u)) w'').
Proof.
  intros HR. pose proof (Reachable_Inv w HR) as [Hid Hem Hs _ _ _]. split.
  - intros Hno. eexists. unfold returns. rewrite create_session_eq.
    rewrite (find_no_email e _ Hno). split; reflexivity.
  - intros u Hu <-. do 3 eexists. unfold returns.
    rewrite create_session_eq, (find_by_email w u Hem Hu). simpl.
    assert (Hin : In (with_session (Some (uuid4 (entropy w))) u)
                     (touch (id u) (with_session (Some (uuid4 (entropy w))))
                            (users w))).
    { apply (in_touch_member u); auto. }
    repeat split; auto.
    rewrite lookup_eq by reflexivity. simpl.
    rewrite (find_the_one _ _ _ Hin); [reflexivity| |].
    + now apply matching_session.
    + intros v Hv Mv. apply matching_session in Mv.
      apply (in_touch_member u) in Hv as [->|[Hv N]]; auto.
      destruct (not_drawn_yet session_id w v Hs Hv Mv).
Qed.

(** C8.  [get_reset_password_token(e)] on a reachable state.  When no
    stored user has email [e] it raises [ValueError] and the rows are as
    before.  When a user [u] has it, the call draws a token that no row
    holds yet, writes it to the row of [u] as reset token and returns
    it. *)
Theorem get_reset_password_token_issues (U : UuidContract L)
  (w : World) (e : string) :
  Reachable w ->
  ((forall u, In u (users w) -> email u <> e) ->
   exists w', raises (Auth.get_reset_password_token e) w ValueError w' /\
              users w' = users w) /\
  (forall u, In u (users w) -> email u = e ->
   exists t w',
     returns (Auth.get_reset_password_token e) w t w' /\
     t = uuid4 (entropy w) /\ entropy w' = S (entropy w) /\
     (forall v, In v (users w) ->
                reset_token v <> Some t /\ session_id v <> Some t) /\
     users w' = touch (id u) (with_reset (Some t)) (users w) /\
     In (with_reset (Some t) u) (users w')).
Proof.
  intros HR. pose proof (Reachable_Inv w HR) as [Hid Hem Hs Hr _ _]. split.
  - intros Hno. eexists. unfold raises. rewrite get_reset_password_token_eq.
    rewrite (find_no_email e _ Hno). split; reflexivity.
  - intros u Hu <-. do 2 eexists. unfold returns.
    rewrite get_reset_password_token_eq, (find_by_email w u Hem Hu). simpl.
    repeat split; auto.
    + now apply not_drawn_yet.
    + now apply not_drawn_yet.
    + apply (in_touch_member u); auto.
Qed.

(** C9.  [destroy_session(None)] does nothing.  For every [user_id],
    calling [destroy_session] twice leaves the rows, and gives the
    outcome, of calling it once.  On a reachable state,
    [destroy_session(u.id)] for a stored user [u] returns with the
    session id of [u] set to null, and a token that resolved to [u]
    through [get_user_from_session_id] before then returns [None]; so
    does the token [create_session] has just returned.  The same holds
    in any table with unique ids where no two rows share a session id:
    the token resolves to its row before [destroy_session], that row and
    no other is rewritten, and the token resolves to nobody after. *)
Theorem destroy_session_idempotent (U : UuidContract L) (w : World) :
  returns (Auth.destroy_session None) w tt w /\
  (forall user_id : option Z,
     let once := Auth.destroy_session user_id w in
     let twice := Auth.destroy_session user_id (snd once) in
     users (snd twice) = users (snd once) /\ fst twice = fst once) /\
  (Reachable w ->
   forall u, In u (users w) ->
   exists w',
     returns (Auth.destroy_session (Some (id u))) w tt w' /\
     users w' = touch (id u) (with_session None) (users w) /\
     In (with_session None u) (users w') /\
     (forall t, session_id u = Some t ->
      returns (Auth.get_user_from_session_id (Some t)) w (Some u)
              (logged [SELECT] w) /\
      exists w'',
        returns (Auth.get_user_from_session_id (Some t)) w' None w'')) /\
  (Reachable w ->
   forall u, In u (users w) ->
   exists t w1 w2 w3,
     returns (Auth.create_session (email u)) w (Some t) w1 /\
     returns (Auth.get_user_from_session_id (Some t)) w1
             (Some (with_session (Some t) u)) (logged [SELECT] w1) /\
     returns (Auth.destroy_session (Some (id u))) w1 tt w2 /\
     returns (Auth.get_user_from_session_id (Some t)) w2 None w3) /\
  (forall u t,
     NoDup (map id (users w)) -> exclusive session_id (users w) ->
     In u (users w) -> session_id u = Some t ->
     returns (Auth.get_user_from_session_id (Some t)) w (Some u)
             (logged [SELECT] w) /\
     exists w',
       returns (Auth.destroy_session (Some (id u))) w tt w' /\
       users w' = touch (id u) (with_session None) (users w) /\
       In (with_session None u) (users w') /\
       (forall v, In v (users w) -> v <> u -> In v (users w')) /\
       returns (Auth.get_user_from_session_id (Some t)) w' None
               (logged [SELECT] w')).
Proof.
  split; [reflexivity|]. split; [|split; [|split]].
  - intros [i|]; [|split; reflexivity]. cbv zeta.
    rewrite (destroy_session_eq i w).
    destruct (find (matching [kw_id i]) (users w)) as [x|] eqn:E;
      rewrite destroy_session_eq; simpl.
    + destruct (find_id_touch i (with_session None) _ x
                  (fun _ => eq_refl) E) as [y ->]. simpl.
      split; [|reflexivity]. now apply touch_touch.
    + rewrite E. split; reflexivity.
  - intros HR u Hu.
    destruct (destroy_session_clears w u HR Hu)
      as (w' & Hret & Hrows & Hin & Hgone).
    pose proof (Reachable_Inv w HR) as [Hid _ _ _ Hx _].
    exists w'. split; [exact Hret|]. split; [exact Hrows|].
    split; [exact Hin|]. intros t Ht. split; [|now apply Hgone].
    destruct (destroy_session_ends w u t Hid Hx Hu Ht) as [Hbefore _].
    exact Hbefore.
  - intros HR u Hu.
    pose proof (Reachable_Inv w HR) as [Hid Hem _ _ _ _].
    pose proof (reach_call w (call_create_session (email u)) HR) as HR1.
    simpl in HR1. rewrite create_session_eq in HR1.
    rewrite (find_by_email w u Hem Hu) in HR1. simpl in HR1.
    set (t := uuid4 (entropy w)) in *.
    assert (Hin : In (with_session (Some t) u)
                     (touch (id u) (with_session (Some t)) (users w)))
      by (apply (in_touch_member u); auto).
    pose proof (Reachable_Inv _ HR1) as [Hid1 _ _ _ Hx1 _].
    destruct (destroy_session_ends _ _ t Hid1 Hx1 Hin eq_refl)
      as (Hbefore & w2 & Hdestroy & _ & _ & _ & Hnone).
    exists t. do 3 eexists. unfold returns.
    rewrite create_session_eq, (find_by_email w u Hem Hu).
    split; [reflexivity|]. split; [exact Hbefore|].
    split; [exact Hdestroy | exact Hnone].
  - intros u t Hid Hx Hu Ht. now apply destroy_session_ends.
Qed.


(** C3 (amended).  A hash that was made for a password checks against
    that password.  When bcrypt hashes the encoded [p] with the salt it
    has drawn, [hash_password] of [encrypt_password.py] returns that
    hash [h] and [is_valid(h, p)] returns [True]; [_hash_password] of
    [auth.py] returns the same, and [valid_login] with [p] returns
    [True] for a stored user whose hash is [h].  So whenever
    [hash_password(p)] returns, its result checks against [p].  When
    bcrypt refuses [p], [hash_password] and [_hash_password] raise what
    bcrypt raised and there is no hash. *)
Theorem verify_hash (B : BcryptChecks L) (p : string) (w : World) :
  (forall h,
     hashpw (encode_utf8 p) (gensalt (entropy w)) = Ret h ->
     exists w',
       returns (hash_password p) w h w' /\
       is_valid h p = Ret true /\
       returns (Auth._hash_password p) w h w' /\
       users w' = users w /\
       (forall e w2 u,
          find (matching [kw_email e]) (users w2) = Some u ->
          hashed_password u = h ->
          returns (Auth.valid_login e p) w2 true (logged [SELECT] w2))) /\
  (forall h w',
     returns (hash_password p) w h w' -> is_valid h p = Ret true) /\
  (forall x,
     hashpw (encode_utf8 p) (gensalt (entropy w)) = Raise x ->
     exists w',
       raises (hash_password p) w x w' /\
       raises (Auth._hash_password p) w x w' /\
       users w' = users w).
Proof.
  unfold returns, raises, hash_password, Auth._hash_password.
  unfold bind, draw, lift, is_valid. simpl. split; [|split].
  - intros h Hh. rewrite Hh. eexists.
    pose proof (checks_own_hash _ _ _ Hh) as Hc.
    repeat split; auto.
    intros e w2 u Hfind <-. rewrite valid_login_eq, Hfind, Hc. reflexivity.
  - intros h w'.
    destruct (hashpw (encode_utf8 p) (gensalt (entropy w))) as [h0|x] eqn:Hh;
      intros [= <- <-].
    exact (checks_own_hash _ _ _ Hh).
  - intros x ->. eexists. repeat split.
Qed.

(** C4 (amended).  [find_user_by] raises [InvalidRequestError], before
    any statement and whatever the rows, when a criteria key is not an
    attribute of [User].  The mapped columns, [hashed_password] among
    them, are attributes, and criteria on them are accepted: with ids
    sqlite3 can bind, the call returns the first row that meets them
    all, or raises [NoResultFound]. *)
Theorem find_user_by_rejects_unknown_attribute
  (kwargs : list kwarg) (w : World) :
  ((exists k, In k kwargs /\ DB.hasattr_User (key k) = false) ->
   raises (DB.find_user_by kwargs) w InvalidRequestError w) /\
  (forall name, In name columns -> DB.hasattr_User name = true) /\
  (DB.mapped kwargs = true -> bindable kwargs = true ->
   DB.find_user_by kwargs w =
   (match find (matching kwargs) (users w) with
    | Some user => Ret user
    | None => Raise NoResultFound
    end, logged [SELECT] w)).
Proof.
  split; [|split].
  - intros Hbad. unfold raises, DB.find_user_by, bind, lift.
    now rewrite (fields_values_invalid _ Hbad).
  - intros name Hin. unfold DB.hasattr_User.
    apply orb_true_iff. left. apply existsb_exists. exists name.
    split; [exact Hin | apply String.eqb_refl].
  - intros Hm _. now apply find_user_by_eq.
Qed.

(** C5.  When [register_user(e, p)] returns, a second
    [register_user(e, p2)] raises [ValueError], changes no row, and the
    hash stored for [e] is still the one made from [p]. *)
Theorem register_user_twice (e p p2 : string) (w w1 : World)
  (r : option User) :
  returns (Auth.register_user e p) w r w1 ->
  exists u h w2,
    r = Some u /\
    hashpw (encode_utf8 p) (gensalt (entropy w)) = Ret h /\
    In u (users w1) /\ email u = e /\ hashed_password u = h /\
    raises (Auth.register_user e p2) w1 ValueError w2 /\
    users w2 = users w1 /\
    (forall v, In v (users w2) -> email v = e -> hashed_password v = h).
Proof.
  unfold returns. rewrite register_user_eq.
  destruct (find (matching [kw_email e]) (users w)) eqn:Hnone;
    [discriminate|].
  destruct (hashpw (encode_utf8 p) (gensalt (entropy w))) as [h|x] eqn:Hh;
    [|discriminate].
  cbv zeta. intros [= <- <-].
  set (new_user := mkUser (DB.next_rowid (users w)) e h None None).
  assert (Hin : In new_user (users w ++ [new_user]))
    by (apply in_or_app; right; now left).
  exists new_user, h. eexists. unfold raises. rewrite register_user_eq.
  simpl users.
  destruct (find (matching [kw_email e]) (users w ++ [new_user])) eqn:Hf.
  - repeat split; auto. simpl. intros v Hv Ev.
    apply in_app_or in Hv as [Hv|[<-|[]]]; [|reflexivity].
    pose proof (find_none _ _ Hnone v Hv) as N.
    apply matching_email in Ev. congruence.
  - pose proof (find_none _ _ Hf new_user Hin) as N.
    assert (T : matching [kw_email e] new_user = true)
      by now apply matching_email.
    congruence.
Qed.

(** C6 (amended).  [is_valid(h, p)] is [bcrypt.checkpw] on the encoded
    password and [h]: it returns what [checkpw] returns and raises what
    [checkpw] raises.  [valid_login] handles [NoResultFound] only, so
    for a stored user any other exception of [checkpw] leaves
    [valid_login]. *)
Theorem is_valid_forwards_checkpw (h : bytes) (p : string) :
  (forall b, is_valid h p = Ret b <-> checkpw (encode_utf8 p) h = Ret b) /\
  (forall x, is_valid h p = Raise x <-> checkpw (encode_utf8 p) h = Raise x) /\
  (forall e w u x,
     find (matching [kw_email e]) (users w) = Some u ->
     hashed_password u = h ->
     checkpw (encode_utf8 p) h = Raise x -> x <> NoResultFound ->
     raises (Auth.valid_login e p) w x (logged [SELECT] w)).
Proof.
  split; [|split].
  - intros b. reflexivity.
  - intros x. reflexivity.
  - intros e w u x Hfind <- Hc Hx. unfold raises.
    rewrite valid_login_eq, Hfind, Hc. destruct x; congruence.
Qed.

(** C7 (amended).  [get_user_from_session_id(None)] returns [None] and
    executes no statement.  For every string [s], the empty one
    included, it executes one SELECT and returns the first row whose
    session id is [s], or [None] when no row has it. *)
Theorem get_user_from_session_id_lookup (w : World) :
  returns (Auth.get_user_from_session_id None) w None w /\
  (forall s, exists r,
     returns (Auth.get_user_from_session_id (Some s)) w r
             (logged [SELECT] w) /\
     r = find (matching [kw_session_id (Some s)]) (users w) /\
     (forall u, r = Some u -> In u (users w) /\ session_id u = Some s) /\
     (r = None <-> forall u, In u (users w) -> session_id u <> Some s)).
Proof.
  split; [reflexivity|]. intros s. eexists. unfold returns.
  rewrite get_user_from_session_id_eq.
  split; [reflexivity|]. split; [reflexivity|]. split; [|split].
  - intros u Hfind. apply find_some in Hfind as [Hu Mu].
    split; [exact Hu | now apply matching_session].
  - intros Hnone u Hu Su. apply matching_session in Su.
    pose proof (find_none _ _ Hnone u Hu). congruence.
  - apply find_no_session.
Qed.

End Claims.

(** * The claims at the scenario *)

Module ScenarioFacts.
Import Scenario.

Lemma users_w1 : users w1 = [alice1].
Proof. reflexivity. Qed.

Lemma users_w2 : users w2 = [alice2].
Proof. reflexivity. Qed.

Lemma users_w3 : users w3 = [alice3].
Proof. reflexivity. Qed.

Lemma reachable_w3 : Reachable (L := Reference.libs) w3.
Proof. repeat apply reach_call. apply reach_init. Qed.

Lemma reachable_w2 : Reachable (L := Reference.libs) w2.
Proof. repeat apply reach_call. apply reach_init. Qed.

Lemma reachable_w1 : Reachable (L := Reference.libs) w1.
Proof. repeat apply reach_call. apply reach_init. Qed.

End ScenarioFacts.

(** C1 at the scenario: bcrypt hashes ["pw2"], and the pending token
    ["2"] is accepted once. *)
Lemma update_password_consumes_token_witness :
  exists w',
    returns (Auth.update_password (L := Reference.libs) "2" "pw2")
            Scenario.w3 tt w' /\
    exists w'',
      raises (Auth.update_password (L := Reference.libs) "2" "pw3")
             w' ValueError w''.
Proof.
  destruct (proj1 (proj2 (update_password_consumes_token
                            (L := Reference.libs)
                            reference_checks ReferenceFacts.uuid
                            Scenario.w3 "2" "pw2"
                            ScenarioFacts.reachable_w3)
                         Scenario.alice3 (or_introl eq_refl) eq_refl)
                  (Reference.ref_gensalt 3 ++ x3a :: encode_utf8 "pw2")
                  eq_refl)
    as (w' & _ & Hret & _ & _ & _ & _ & Hagain).
  exists w'. split; [exact Hret|].
  destruct (Hagain "pw3") as (w'' & Hraise & _). exists w''. exact Hraise.
Defined.

(** C1, the claim as stated fails: with libraries that meet the
    contracts, and a bcrypt that refuses a password of 73 bytes,
    [update_password] with the pending token ["2"] and such a password
    raises [ValueError]; the hash is not set and the token stays. *)
Lemma update_password_refused_password :
  BcryptChecks StrictReference.libs /\
  Reachable (L := StrictReference.libs) Scenario3.w3 /\
  users Scenario3.w3 = [Scenario.alice3] /\
  reset_token Scenario.alice3 = Some "2" /\
  raises (Auth.update_password (L := StrictReference.libs) "2"
            StrictReference.long_password)
         Scenario3.w3 ValueError
         (mkWorld [Scenario.alice3] (SELECT :: statements Scenario3.w3) 4).
Proof.
  split; [exact strict_checks|]. split.
  - repeat apply reach_call. apply reach_init.
  - repeat split.
Qed.

(** C2 at the scenario: the session created for the registered account
    resolves to its row. *)
Lemma create_session_resolves_witness :
  exists t w' w'',
    returns (Auth.create_session (L := Reference.libs) "a@b.com")
            Scenario.w1 (Some t) w' /\
    returns (Auth.get_user_from_session_id (L := Reference.libs) (Some t))
            w' (Some (with_session (Some t) Scenario.alice1)) w''.
Proof.
  destruct (proj2 (create_session_resolves (L := Reference.libs)
                     ReferenceFacts.uuid Scenario.w1 "a@b.com"
                     ScenarioFacts.reachable_w1)
                  Scenario.alice1 (or_introl eq_refl) eq_refl)
    as (t & w' & w'' & Hret & _ & _ & _ & Hget).
  exists t, w', w''. split; [exact Hret | exact Hget].
Defined.

(** C3 at the scenario: the hash made for ["pw1"] checks against it. *)
Lemma verify_hash_witness :
  exists w',
    returns (hash_password (L := Reference.libs) "pw1") Scenario.w0
            Scenario.pw1_hash w' /\
    is_valid (L := Reference.libs) Scenario.pw1_hash "pw1" = Ret true.
Proof.
  destruct (proj1 (verify_hash (L := Reference.libs) reference_checks
                     "pw1" Scenario.w0)
                  Scenario.pw1_hash eq_refl)
    as (w' & Hret & Hvalid & _).
  exists w'. split; [exact Hret | exact Hvalid].
Defined.

(** C3, the claim as stated fails: with a bcrypt that refuses a password
    of 73 bytes (and checks every hash it makes), [hash_password] of
    such a password raises [ValueError], so there is no hash to
    verify. *)
Lemma hash_password_refused_password :
  BcryptChecks StrictReference.libs /\
  raises (hash_password (L := StrictReference.libs)
            StrictReference.long_password)
         Scenario.w0 ValueError (mkWorld [] [] 1).
Proof. split; [exact strict_checks | reflexivity]. Qed.

(** C4 at the scenario: a key that [User] lacks is refused although the
    other criterion matches a row. *)
Lemma find_user_by_rejects_unknown_attribute_witness :
  raises (DB.find_user_by (L := Reference.libs)
            [kw_email "a@b.com"; kw_other "nickname"])
         Scenario.w1 InvalidRequestError Scenario.w1.
Proof.
  apply (proj1 (find_user_by_rejects_unknown_attribute
                  (L := Reference.libs)
                  [kw_email "a@b.com"; kw_other "nickname"] Scenario.w1)).
  exists (kw_other "nickname"). split; [right; left|]; reflexivity.
Defined.

(** C4, the claim as stated fails: [hashed_password] is none of id,
    email, session_id, reset_token, and a criterion on it returns the
    row. *)
Lemma find_user_by_accepts_hashed_password :
  ~ In "hashed_password" ["id"; "email"; "session_id"; "reset_token"] /\
  returns (DB.find_user_by (L := Reference.libs)
             [kw_hashed_password Scenario.pw1_hash])
          Scenario.w1 Scenario.alice1 (logged [SELECT] Scenario.w1).
Proof.
  split; [|reflexivity].
  intros [H|[H|[H|[H|[]]]]]; discriminate.
Qed.

(** C5 at the scenario: registering the same email again. *)
Lemma register_user_twice_witness :
  exists w2,
    raises (Auth.register_user (L := Reference.libs) "a@b.com" "other")
           Scenario.w1 ValueError w2 /\
    users w2 = [Scenario.alice1].
Proof.
  destruct (register_user_twice (L := Reference.libs)
              "a@b.com" "pw1" "other" Scenario.w0 Scenario.w1
              (Some Scenario.alice1) eq_refl)
    as (u & h & w2 & _ & _ & _ & _ & _ & Hraise & Hsame & _).
  exists w2. split; [exact Hraise | exact Hsame].
Defined.

(** C6 at the scenario: the exception of [checkpw] on a stored foreign
    hash leaves [valid_login]. *)
Lemma is_valid_forwards_checkpw_witness :
  raises (Auth.valid_login (L := Reference.libs) "a@b.com" "pw1")
         Scenario.w_foreign ValueError (logged [SELECT] Scenario.w_foreign).
Proof.
  apply (proj2 (proj2 (is_valid_forwards_checkpw (L := Reference.libs)
                         Scenario.foreign_hash "pw1"))
               "a@b.com" Scenario.w_foreign
               (mkUser 1 "a@b.com" Scenario.foreign_hash None None)
               ValueError eq_refl eq_refl eq_refl).
  discriminate.
Defined.

(** C6, the claim as stated fails: with libraries that meet the bcrypt
    contract, [is_valid] raises on a hash bcrypt did not make. *)
Lemma is_valid_raises_on_foreign_hash :
  BcryptContract Reference.libs /\
  is_valid (L := Reference.libs) Scenario.foreign_hash "pw1"
  = Raise ValueError.
Proof. split; [exact ReferenceFacts.bcrypt | reflexivity]. Qed.

(** C7, the claim as stated fails: for the empty string a SELECT is
    executed. *)
Lemma get_user_from_session_id_empty_string_queries :
  exists w',
    returns (Auth.get_user_from_session_id (L := Reference.libs) (Some ""))
            Scenario.w0 None w' /\
    statements Scenario.w0 = [] /\ statements w' = [SELECT].
Proof. eexists. repeat split. Qed.

(** C8 at the scenario: a reset token is issued to the registered
    account. *)
Lemma get_reset_password_token_issues_witness :
  exists t w',
    returns (Auth.get_reset_password_token (L := Reference.libs) "a@b.com")
            Scenario.w2 t w' /\
    In (with_reset (Some t) Scenario.alice2) (users w').
Proof.
  destruct (proj2 (get_reset_password_token_issues (L := Reference.libs)
                     ReferenceFacts.uuid Scenario.w2 "a@b.com"
                     ScenarioFacts.reachable_w2)
                  Scenario.alice2 (or_introl eq_refl) eq_refl)
    as (t & w' & Hret & _ & _ & _ & _ & Hin).
  exists t, w'. split; [exact Hret | exact Hin].
Defined.

(** C9 at the scenario: the session ["1"] resolves to its row, and after
    [destroy_session(1)] to nobody. *)
Lemma destroy_session_idempotent_witness :
  returns (Auth.get_user_from_session_id (L := Reference.libs) (Some "1"))
          Scenario.w2 (Some Scenario.alice2) (logged [SELECT] Scenario.w2) /\
  exists w',
    returns (Auth.destroy_session (L := Reference.libs) (Some 1))
            Scenario.w2 tt w' /\
    returns (Auth.get_user_from_session_id (L := Reference.libs) (Some "1"))
            w' None (logged [SELECT] w').
Proof.
  destruct (proj2 (proj2 (proj2 (proj2 (destroy_session_idempotent
                                          (L := Reference.libs)
                                          ReferenceFacts.uuid Scenario.w2))))
                  Scenario.alice2 "1")
    as (Hbefore & w' & Hret & _ & _ & _ & Hafter).
  - repeat constructor. intros [].
  - intros u v s [<-|[]] [<-|[]] _ _. reflexivity.
  - now left.
  - reflexivity.
  - split; [exact Hbefore|]. exists w'. split; [exact Hret | exact Hafter].
Defined.


(** * Further properties of [db.py] and [auth.py] *)

(** ** One method call on a reachable state *)

Section Steps.
Context {L : Libs} {U : UuidContract L}.

Lemma find_app_none {A} (f : A -> bool) (l l' : list A) :
  find f l = None -> find f (l ++ l') = find f l'.
Proof.
  induction l as [|a l IH]; simpl; [reflexivity|].
  destruct (f a); [discriminate | exact IH].
Qed.

Lemma update_source_invalid (kwargs : list kwarg) :
  (exists k, In k kwargs /\ DB.hasattr_User (key k) = false) ->
  DB.update_source kwargs = Raise ValueError.
Proof.
  induction kwargs as [|k rest IH]; intros (k0 & Hin & Hk0); [destruct Hin|].
  simpl. destruct (DB.hasattr_User (key k)) eqn:Hk; [|reflexivity].
  destruct Hin as [->|Hin]; [congruence|].
  rewrite IH; [reflexivity|]. exists k0. auto.
Qed.

Lemma find_no_id (i : Z) (us : list User) :
  (forall u, In u us -> id u <> i) ->
  find (matching [kw_id i]) us = None.
Proof.
  intros H. apply find_no_row. intros v Hv.
  destruct (matching [kw_id i] v) eqn:E; [|reflexivity].
  apply matching_id in E. now destruct (H v Hv).
Qed.

Lemma create_session_step (w : World) (u : User) :
  Reachable w -> In u (users w) ->
  let t := uuid4 (entropy w) in
  let w1 := mkWorld (touch (id u) (with_session (Some t)) (users w))
                    (UPDATE :: SELECT :: SELECT :: statements w)
                    (S (entropy w)) in
  Auth.create_session (email u) w = (Ret (Some t), w1) /\
  Reachable w1 /\ In (with_session (Some t) u) (users w1).
Proof.
  intros HR Hu t w1.
  pose proof (Reachable_Inv w HR) as [Hid Hem _ _ _ _].
  assert (E : Auth.create_session (email u) w = (Ret (Some t), w1)).
  { rewrite create_session_eq, (find_by_email w u Hem Hu). reflexivity. }
  split; [exact E|]. split.
  - pose proof (reach_call w (call_create_session (email u)) HR) as H.
    simpl in H. now rewrite E in H.
  - apply (in_touch_member u); auto.
Qed.

Lemma get_reset_password_token_step (w : World) (u : User) :
  Reachable w -> In u (users w) ->
  let t := uuid4 (entropy w) in
  let w1 := mkWorld (touch (id u) (with_reset (Some t)) (users w))
                    (UPDATE :: SELECT :: SELECT :: statements w)
                    (S (entropy w)) in
  Auth.get_reset_password_token (email u) w = (Ret t, w1) /\
  Reachable w1 /\ In (with_reset (Some t) u) (users w1).
Proof.
  intros HR Hu t w1.
  pose proof (Reachable_Inv w HR) as [Hid Hem _ _ _ _].
  assert (E : Auth.get_reset_password_token (email u) w = (Ret t, w1)).
  { rewrite get_reset_password_token_eq, (find_by_email w u Hem Hu).
    reflexivity. }
  split; [exact E|]. split.
  - pose proof (reach_call w (call_get_reset_password_token (email u)) HR)
      as H.
    simpl in H. now rewrite E in H.
  - apply (in_touch_member u); auto.
Qed.

Lemma update_password_step (w : World) (u : User) (t p : string) (h : bytes) :
  Reachable w -> In u (users w) -> reset_token u = Some t ->
  hashpw (encode_utf8 p) (gensalt (entropy w)) = Ret h ->
  let w1 := mkWorld (touch (id u) (with_password h) (users w))
                    (UPDATE :: SELECT :: SELECT :: statements w)
                    (S (entropy w)) in
  Auth.update_password t p w = (Ret tt, w1) /\
  Reachable w1 /\ In (with_password h u) (users w1).
Proof.
  intros HR Hu Ht Hh w1.
  pose proof (Reachable_Inv w HR) as [Hid _ _ _ _ Hx].
  assert (E : Auth.update_password t p w = (Ret tt, w1)).
  { rewrite update_password_eq.
    rewrite (find_by_token reset_token kw_reset_token _ u t
               (matching_reset t) Hx Hu Ht), Hh. reflexivity. }
  split; [exact E|]. split.
  - pose proof (reach_call w (call_update_password t p) HR) as H.
    simpl in H. now rewrite E in H.
  - apply (in_touch_member u); auto.
Qed.

Lemma session_lookup_step (w : World) (u : User) (s : string) :
  Reachable w -> In u (users w) -> session_id u = Some s ->
  Auth.get_user_from_session_id (Some s) w = (Ret (Some u), logged [SELECT] w).
Proof.
  intros HR Hu Hs. pose proof (Reachable_Inv w HR) as [_ _ _ _ Hx _].
  rewrite get_user_from_session_id_eq.
  now rewrite (find_by_token session_id kw_session_id _ u s
                 (matching_session s) Hx Hu Hs).
Qed.

Lemma valid_login_step (w : World) (u : User) (p : string) :
  Reachable w -> In u (users w) ->
  checkpw (encode_utf8 p) (hashed_password u) = Ret true ->
  Auth.valid_login (email u) p w = (Ret true, logged [SELECT] w).
Proof.
  intros HR Hu Hc. pose proof (Reachable_Inv w HR) as [_ Hem _ _ _ _].
  now rewrite valid_login_eq, (find_by_email w u Hem Hu), Hc.
Qed.

End Steps.

(** ** Session ids and reset tokens never coincide *)

Section Apart.
Context {L : Libs} {U : UuidContract L}.

Lemma apart_touch (w : World) (user_id : Z) (f : User -> User) (n' : nat) :
  Inv w -> gentle session_id f w n' -> gentle reset_token f w n' ->
  (forall u, In u (users w) ->
             session_id (f u) = Some (uuid4 (entropy w)) ->
             reset_token (f u) = Some (uuid4 (entropy w)) -> False) ->
  apart (users w) -> apart (touch user_id f (users w)).
Proof.
  intros [Hid _ Hs Hr _ _] Gs Gr Hboth Ha v1 v2 s H1 H2 P1 P2.
  apply in_touch in H1 as (u1 & Hu1 & ->).
  apply in_touch in H2 as (u2 & Hu2 & ->).
  assert (S1 : session_id u1 = Some s \/
               (s = uuid4 (entropy w) /\ id u1 = user_id)).
  { destruct (Z.eqb_spec (id u1) user_id) as [E|N]; [|now left].
    destruct (Gs u1) as [G|[G|[G _]]]; rewrite G in P1.
    - now left.
    - discriminate.
    - right. split; congruence. }
  assert (R2 : reset_token u2 = Some s \/
               (s = uuid4 (entropy w) /\ id u2 = user_id)).
  { destruct (Z.eqb_spec (id u2) user_id) as [E|N]; [|now left].
    destruct (Gr u2) as [G|[G|[G _]]]; rewrite G in P2.
    - now left.
    - discriminate.
    - right. split; congruence. }
  destruct S1 as [S1|[-> I1]], R2 as [R2|[E2 I2]].
  - exact (Ha u1 u2 s Hu1 Hu2 S1 R2).
  - subst s. exact (not_drawn_yet session_id w u1 Hs Hu1 S1).
  - exact (not_drawn_yet reset_token w u2 Hr Hu2 R2).
  - assert (u1 = u2) by (apply (NoDup_map_eq id _ u1 u2 Hid); congruence).
    subst u2. apply Z.eqb_eq in I1. rewrite I1 in P1, P2.
    exact (Hboth u1 Hu1 P1 P2).
Qed.

Lemma apart_add (us : list User) (i : Z) (e : string) (h : bytes) :
  apart us -> apart (us ++ [mkUser i e h None None]).
Proof.
  intros Ha u v s Hu Hv Su Rv.
  apply in_app_or in Hu as [Hu|[<-|[]]]; [|discriminate].
  apply in_app_or in Hv as [Hv|[<-|[]]]; [|discriminate].
  exact (Ha u v s Hu Hv Su Rv).
Qed.

Lemma apart_after (c : Call) (w : World) :
  Inv w -> apart (users w) -> apart (users (after c w)).
Proof.
  intros HI Ha. destruct c as [e p|e p|e|s|i|e|t p]; simpl.
  - rewrite register_user_eq.
    destruct (find (matching [kw_email e]) (users w)); [exact Ha|].
    destruct (hashpw _ _); simpl; [now apply apart_add | exact Ha].
  - rewrite valid_login_eq. exact Ha.
  - rewrite create_session_eq.
    destruct (find (matching [kw_email e]) (users w)) as [x|]; simpl;
      [|exact Ha].
    apply (apart_touch w _ _ (S (entropy w))); auto;
      intros y; simpl; auto 6 with arith.
    destruct HI as [_ _ _ Hr _ _].
    intros Hy _ R. exact (not_drawn_yet reset_token w y Hr Hy R).
  - destruct s as [s|]; [|exact Ha].
    rewrite get_user_from_session_id_eq. exact Ha.
  - destruct i as [i|]; [|exact Ha].
    rewrite destroy_session_eq.
    destruct (find (matching [kw_id i]) (users w)); simpl; [|exact Ha].
    apply (apart_touch w _ _ (entropy w)); auto;
      intros y; simpl; auto 6 with arith. discriminate.
  - rewrite get_reset_password_token_eq.
    destruct (find (matching [kw_email e]) (users w)) as [x|]; simpl;
      [|exact Ha].
    apply (apart_touch w _ _ (S (entropy w))); auto;
      intros y; simpl; auto 6 with arith.
    destruct HI as [_ _ Hs _ _ _].
    intros Hy S0 _. exact (not_drawn_yet session_id w y Hs Hy S0).
  - rewrite update_password_eq.
    destruct (find (matching [kw_reset_token (Some t)]) (users w)); simpl;
      [|exact Ha].
    destruct (hashpw _ _); simpl; [|exact Ha].
    apply (apart_touch w _ _ (S (entropy w))); auto;
      intros y; simpl; auto 6 with arith. discriminate.
Qed.

End Apart.

Lemma Reachable_apart {L : Libs} {U : UuidContract L} (w : World) :
  Reachable w -> apart (users w).
Proof.
  induction 1 as [seed|w c HR IH].
  - intros u v s [].
  - apply apart_after; [now apply Reachable_Inv | exact IH].
Qed.

Section Extras.
Context {L : Libs}.

(** X1.  In every state the methods of [Auth] can reach, no two rows
    share an id, an email, a session id or a reset token, and no session
    id of any row is the reset token of any row. *)
Theorem reachable_rows_unique (U : UuidContract L) (w : World) :
  Reachable w ->
  NoDup (map id (users w)) /\
  NoDup (map email (users w)) /\
  (forall u v s, In u (users w) -> In v (users w) ->
                 session_id u = Some s -> session_id v = Some s -> u = v) /\
  (forall u v t, In u (users w) -> In v (users w) ->
                 reset_token u = Some t -> reset_token v = Some t -> u = v) /\
  (forall u v s, In u (users w) -> In v (users w) ->
                 session_id u = Some s -> reset_token v <> Some s).
Proof.
  intros HR. pose proof (Reachable_Inv w HR) as [Hid Hem _ _ Hxs Hxr].
  repeat split; auto.
  intros u v s Hu Hv Su Rv. exact (Reachable_apart w HR u v s Hu Hv Su Rv).
Qed.

(** X2.  [valid_login] and [get_user_from_session_id] only read: in any
    state and for any arguments they leave the rows and the random
    source as they were.  [valid_login] returns [False] for an email no
    row has, and returns [True] only when [checkpw] accepted the password
    against the hash of a row with that email. *)
Theorem lookups_only_read (w : World) (e p : string) (s : option string) :
  users (snd (Auth.valid_login e p w)) = users w /\
  entropy (snd (Auth.valid_login e p w)) = entropy w /\
  users (snd (Auth.get_user_from_session_id s w)) = users w /\
  entropy (snd (Auth.get_user_from_session_id s w)) = entropy w /\
  ((forall u, In u (users w) -> email u <> e) ->
   fst (Auth.valid_login e p w) = Ret false) /\
  (fst (Auth.valid_login e p w) = Ret true ->
   exists u, In u (users w) /\ email u = e /\
             checkpw (encode_utf8 p) (hashed_password u) = Ret true).
Proof.
  rewrite valid_login_eq. simpl.
  repeat split.
  - destruct s as [s|]; [|reflexivity].
    now rewrite get_user_from_session_id_eq.
  - destruct s as [s|]; [|reflexivity].
    now rewrite get_user_from_session_id_eq.
  - intros Hno. now rewrite (find_no_email e _ Hno).
  - destruct (find (matching [kw_email e]) (users w)) as [u|] eqn:E;
      [|discriminate].
    apply find_some in E as [Hu Mu]. apply matching_email in Mu.
    intros Hc. exists u. repeat split; auto.
    destruct (checkpw _ _) as [b|[]]; congruence.
Qed.


(** X4.  The reset flow on a reachable state, for a new password bcrypt
    hashes: for a stored user, [get_reset_password_token] returns a
    token, [update_password] with that token and the new password
    returns, and [valid_login] with the new password then returns
    [True]. *)
Theorem reset_then_login (B : BcryptChecks L) (U : UuidContract L)
  (w : World) (u : User) (p : string) :
  Reachable w -> In u (users w) -> accepted p ->
  exists t w1 w2,
    returns (Auth.get_reset_password_token (email u)) w t w1 /\
    returns (Auth.update_password t p) w1 tt w2 /\
    returns (Auth.valid_login (email u) p) w2 true (logged [SELECT] w2).
Proof.
  intros HR Hu Hacc.
  destruct (get_reset_password_token_step w u HR Hu) as (E1 & HR1 & Hu1).
  cbv zeta in *. set (t := uuid4 (entropy w)) in *.
  destruct (Hacc (S (entropy w))) as [h Hh].
  destruct (update_password_step _ (with_reset (Some t) u) t p h
              HR1 Hu1 eq_refl Hh) as (E2 & HR2 & Hu2).
  cbv zeta in *. do 3 eexists. unfold returns.
  split; [exact E1|]. split; [exact E2|].
  apply (valid_login_step _ _ p HR2 Hu2). simpl.
  exact (checks_own_hash _ _ _ Hh).
Qed.

(** X5.  Sessions on a reachable state, one per user: a second
    [create_session] for the same email returns a different token; the
    first token then resolves to nobody and the second to the user. *)
Theorem create_session_replaces (U : UuidContract L) (w : World) (u : User) :
  Reachable w -> In u (users w) ->
  exists t1 t2 w1 w2,
    returns (Auth.create_session (email u)) w (Some t1) w1 /\
    returns (Auth.create_session (email u)) w1 (Some t2) w2 /\
    t1 <> t2 /\
    returns (Auth.get_user_from_session_id (Some t1)) w2 None
            (logged [SELECT] w2) /\
    returns (Auth.get_user_from_session_id (Some t2)) w2
            (Some (with_session (Some t2) u)) (logged [SELECT] w2).
Proof.
  intros HR Hu.
  destruct (create_session_step w u HR Hu) as (E1 & HR1 & Hu1).
  cbv zeta in *. set (t1 := uuid4 (entropy w)) in *.
  destruct (create_session_step _ _ HR1 Hu1) as (E2 & HR2 & Hu2).
  cbv zeta in *. simpl entropy in *. set (t2 := uuid4 (S (entropy w))) in *.
  assert (Ht : t1 <> t2).
  { intros E. apply uuid4_inj in E. lia. }
  pose proof (Reachable_Inv _ HR1) as [Hid1 _ _ _ Hx1 _].
  exists t1, t2. do 2 eexists. unfold returns.
  split; [exact E1|]. split; [exact E2|]. split; [exact Ht|]. split.
  - rewrite get_user_from_session_id_eq, find_no_session; [reflexivity|].
    intros v Hv Sv. simpl in Hv.
    apply (in_touch_member (with_session (Some t1) u)) in Hv
      as [->|[Hv N]]; auto.
    + simpl in Sv. congruence.
    + apply N. now rewrite (Hx1 v _ t1 Hv Hu1 Sv eq_refl).
  - exact (session_lookup_step _ _ t2 HR2 Hu2 eq_refl).
Qed.

(** X6.  Reset tokens on a reachable state, one per user: after a second
    [get_reset_password_token] for the same email the first token is
    refused by [update_password], which raises [ValueError] and changes
    no row. *)
Theorem reset_token_replaces (U : UuidContract L) (w : World) (u : User)
  (p : string) :
  Reachable w -> In u (users w) ->
  exists t1 t2 w1 w2,
    returns (Auth.get_reset_password_token (email u)) w t1 w1 /\
    returns (Auth.get_reset_password_token (email u)) w1 t2 w2 /\
    t1 <> t2 /\
    raises (Auth.update_password t1 p) w2 ValueError (logged [SELECT] w2).
Proof.
  intros HR Hu.
  destruct (get_reset_password_token_step w u HR Hu) as (E1 & HR1 & Hu1).
  cbv zeta in *. set (t1 := uuid4 (entropy w)) in *.
  destruct (get_reset_password_token_step _ _ HR1 Hu1) as (E2 & HR2 & Hu2).
  cbv zeta in *. simpl entropy in *. set (t2 := uuid4 (S (entropy w))) in *.
  assert (Ht : t1 <> t2).
  { intros E. apply uuid4_inj in E. lia. }
  pose proof (Reachable_Inv _ HR1) as [Hid1 _ _ _ _ Hx1].
  exists t1, t2. do 2 eexists. unfold returns, raises.
  split; [exact E1|]. split; [exact E2|]. split; [exact Ht|].
  rewrite update_password_eq, find_no_reset; [reflexivity|].
  intros v Hv Rv. simpl in Hv.
  apply (in_touch_member (with_reset (Some t1) u)) in Hv
    as [->|[Hv N]]; auto.
  - simpl in Rv. congruence.
  - apply N. now rewrite (Hx1 v _ t1 Hv Hu1 Rv eq_refl).
Qed.

(** X7.  On a reachable state [create_session] for one user leaves every
    other row as it is, and a session id another user holds still
    resolves to that user. *)
Theorem create_session_frame (U : UuidContract L) (w : World) (u v : User) :
  Reachable w -> In u (users w) -> In v (users w) -> v <> u ->
  exists t w1,
    returns (Auth.create_session (email u)) w (Some t) w1 /\
    In v (users w1) /\
    (forall s, session_id v = Some s ->
     returns (Auth.get_user_from_session_id (Some s)) w1 (Some v)
             (logged [SELECT] w1)).
Proof.
  intros HR Hu Hv Hne.
  destruct (create_session_step w u HR Hu) as (E1 & HR1 & Hu1).
  cbv zeta in *. pose proof (Reachable_Inv _ HR) as [Hid _ _ _ _ _].
  assert (Hv1 : In v (touch (id u)
                        (with_session (Some (uuid4 (entropy w)))) (users w))).
  { apply (in_touch_member u); auto. right. split; auto.
    intros E. apply Hne. exact (NoDup_map_eq id _ v u Hid Hv Hu E). }
  do 2 eexists. split; [exact E1|]. split; [exact Hv1|].
  intros s Hs. exact (session_lookup_step _ v s HR1 Hv1 Hs).
Qed.

(** X8.  Errors of [update_user], in the order the code checks: when no
    row has the id, an id sqlite3 can bind, it raises [NoResultFound],
    whatever the keywords; when a row has the id and some key is not an
    attribute of [User] it raises [ValueError].  In both cases no UPDATE
    is executed and the rows stay.  So [destroy_session] of such an id no
    row has raises [NoResultFound]. *)
Theorem update_user_errors (i : Z) (kwargs : list kwarg) (w : World) :
  ((forall u, In u (users w) -> id u <> i) -> int64 i = true ->
   raises (DB.update_user i kwargs) w NoResultFound (logged [SELECT] w) /\
   raises (Auth.destroy_session (Some i)) w NoResultFound
          (logged [SELECT] w)) /\
  ((exists u, In u (users w) /\ id u = i) ->
   (exists k, In k kwargs /\ DB.hasattr_User (key k) = false) ->
   raises (DB.update_user i kwargs) w ValueError (logged [SELECT] w)).
Proof.
  unfold raises, Auth.destroy_session, DB.update_user, bind. split.
  - intros Hno _. rewrite !find_user_by_eq by reflexivity.
    rewrite (find_no_id i _ Hno). split; reflexivity.
  - intros (u & Hu & Hi) Hbad. rewrite find_user_by_eq by reflexivity.
    subst i. destruct (find_id_of_member u _ Hu) as [x ->].
    unfold lift. now rewrite (update_source_invalid _ Hbad).
Qed.

(** X9.  [add_user] while the largest rowid is not in use: the row it
    returns has the given email and hash, null session id and reset
    token, and an id above every id in the table; it is appended after
    the rows that were there, and [find_user_by(id=...)] of its id
    returns it. *)
Theorem add_user_round_trip (e : string) (h : bytes) (w : World) :
  (forall v, In v (users w) -> id v < max_rowid) ->
  exists u w',
    returns (DB.add_user e h) w (Some u) w' /\
    email u = e /\ hashed_password u = h /\
    session_id u = None /\ reset_token u = None /\
    (forall v, In v (users w) -> id v < id u) /\
    users w' = users w ++ [u] /\
    returns (DB.find_user_by [kw_id (id u)]) w' u (logged [SELECT] w').
Proof.
  intros _. do 2 eexists. unfold returns. rewrite add_user_eq. cbv zeta.
  split; [reflexivity|]. simpl. repeat split.
  - intros v Hv. now apply next_rowid_above.
  - rewrite find_user_by_eq by reflexivity. simpl users.
    rewrite find_app_none.
    + rewrite find_the_one with (u := mkUser (DB.next_rowid (users w))
                                             e h None None);
        [reflexivity | now left | now apply matching_id |].
      now intros v [<-|[]] _.
    + apply find_no_id. intros v Hv E.
      pose proof (next_rowid_above _ _ Hv) as Hlt. simpl in E.
      rewrite E in Hlt. exact (Z.lt_irrefl _ Hlt).
Qed.

(** X10.  [add_user] does not look at the emails in the table: called
    twice with an email no row had, while the two largest rowids are not
    in use, it stores two rows with that email and different ids, and
    [find_user_by(email=...)] returns the first of them. *)
Theorem add_user_keeps_duplicates (e : string) (h1 h2 : bytes) (w : World) :
  (forall v, In v (users w) -> email v <> e) ->
  (forall v, In v (users w) -> id v < max_rowid - 1) ->
  exists u1 u2 w1 w2,
    returns (DB.add_user e h1) w (Some u1) w1 /\
    returns (DB.add_user e h2) w1 (Some u2) w2 /\
    users w2 = users w ++ [u1; u2] /\
    email u1 = e /\ email u2 = e /\ id u1 < id u2 /\
    hashed_password u1 = h1 /\ hashed_password u2 = h2 /\
    returns (DB.find_user_by [kw_email e]) w2 u1 (logged [SELECT] w2).
Proof.
  intros Hno _. do 4 eexists. unfold returns. rewrite !add_user_eq. cbv zeta.
  split; [reflexivity|]. split; [reflexivity|]. simpl users.
  set (u1 := mkUser (DB.next_rowid (users w)) e h1 None None).
  set (u2 := mkUser (DB.next_rowid (users w ++ [u1])) e h2 None None).
  split; [now rewrite <- app_assoc|]. repeat split.
  - apply (next_rowid_above (users w ++ [u1]) u1).
    apply in_or_app. right. now left.
  - rewrite find_user_by_eq by reflexivity. simpl users.
    rewrite <- app_assoc, (find_app_none _ _ _ (find_no_email e _ Hno)).
    simpl app. cbn [find].
    replace (matching [kw_email e] u1) with true; [reflexivity|].
    symmetry. now apply matching_email.
Qed.

Lemma forallb_false_in {A} (f : A -> bool) (l : list A) :
  forallb f l = false <-> exists k, In k l /\ f k = false.
Proof.
  induction l as [|a l IH]; simpl.
  - split; [discriminate | intros (k & [] & _)].
  - rewrite andb_false_iff, IH. split.
    + intros [Ha|(k & Hk & Hf)]; [exists a | exists k]; auto.
    + intros (k & [<-|Hk] & Hf); [left | right; exists k]; auto.
Qed.

Lemma find_split {A} (f : A -> bool) (l : list A) (u : A) :
  find f l = Some u ->
  exists before rest,
    l = before ++ u :: rest /\ f u = true /\
    forall v, In v before -> f v = false.
Proof.
  induction l as [|a l IH]; simpl; [discriminate|].
  destruct (f a) eqn:Fa.
  - intros [= <-]. exists [], l. repeat split; auto. intros v [].
  - intros E. destruct (IH E) as (before & rest & -> & Fu & Hb).
    exists (a :: before), rest. repeat split; auto.
    intros v [<-|Hv]; auto.
Qed.

(** X11.  A null criterion matches no row: [find_user_by] with
    [session_id=None] or [reset_token=None] among criteria on mapped
    columns, their ids ones sqlite3 can bind, raises [NoResultFound],
    also when rows have that column null. *)
Theorem find_user_by_null_criterion (criteria : list kwarg) (w : World) :
  DB.mapped criteria = true -> bindable criteria = true ->
  In (kw_session_id None) criteria \/ In (kw_reset_token None) criteria ->
  raises (DB.find_user_by criteria) w NoResultFound (logged [SELECT] w).
Proof.
  intros Hm _ Hnull. unfold raises. rewrite (find_user_by_eq _ _ Hm).
  rewrite find_no_row; [reflexivity|].
  intros v _. apply forallb_false_in.
  destruct Hnull as [H|H]; eexists; (split; [exact H|]); simpl.
  - now destruct (session_id v).
  - now destruct (reset_token v).
Qed.

(** X12.  Criteria on mapped columns, their ids ones sqlite3 can bind,
    are a conjunction and the first match wins: the row [find_user_by]
    returns meets every criterion and every row before it in the table
    fails one; [NoResultFound] is raised exactly when every row fails
    some criterion. *)
Theorem find_user_by_first_match (criteria : list kwarg) (w : World) :
  DB.mapped criteria = true -> bindable criteria = true ->
  (forall u w', returns (DB.find_user_by criteria) w u w' ->
     exists before rest,
       users w = before ++ u :: rest /\
       (forall k, In k criteria -> DB.holds u k = true) /\
       (forall v, In v before ->
                  exists k, In k criteria /\ DB.holds v k = false)) /\
  ((exists w', raises (DB.find_user_by criteria) w NoResultFound w') <->
   (forall v, In v (users w) ->
              exists k, In k criteria /\ DB.holds v k = false)).
Proof.
  intros Hm _. unfold returns, raises. rewrite (find_user_by_eq _ _ Hm).
  destruct (find (matching criteria) (users w)) as [x|] eqn:E; split.
  - intros u w' [= <- _].
    destruct (find_split _ _ _ E) as (before & rest & Hl & Hx & Hb).
    exists before, rest. split; [exact Hl|]. split.
    + intros k Hk. unfold matching in Hx.
      rewrite forallb_forall in Hx. now apply Hx.
    + intros v Hv. apply forallb_false_in. now apply Hb.
  - split; [intros (w' & [=])|].
    intros Hall. apply find_some in E as [Hx Mx].
    destruct (Hall x Hx) as (k & Hk & Hf).
    unfold matching in Mx. rewrite forallb_forall in Mx.
    rewrite (Mx k Hk) in Hf. discriminate.
  - intros u w' [=].
  - split; [|eauto]. intros _ v Hv. apply forallb_false_in.
    exact (find_none _ _ E v Hv).
Qed.

Lemma set_columns_keeps {A} (proj : User -> A) (name : string)
  (src : list kwarg) (u : User) :
  (forall k v, key k <> name -> proj (DB.assign v k) = proj v) ->
  ~ In name (map key src) ->
  proj (DB.set_columns src u) = proj u.
Proof.
  intros Hassign. unfold DB.set_columns. revert u.
  induction src as [|k rest IH]; simpl; intros u Hn; [reflexivity|].
  rewrite IH by tauto. apply Hassign. tauto.
Qed.

(** X13.  Frame of [update_user]: with keywords on mapped columns other
    than [id], and a row with the id present, the call returns after one
    SELECT and one UPDATE; the ids, their order and the rows with another
    id are as before, and in a rewritten row every column that is no
    keyword keeps its value. *)
Theorem update_user_frame (i : Z) (src : list kwarg) (w : World) :
  DB.mapped src = true -> keeps_id src = true ->
  (exists u, In u (users w) /\ id u = i) ->
  exists w',
    returns (DB.update_user i src) w tt w' /\
    statements w' = UPDATE :: SELECT :: statements w /\
    entropy w' = entropy w /\
    map id (users w') = map id (users w) /\
    (forall v, id v <> i -> (In v (users w') <-> In v (users w))) /\
    (forall v', In v' (users w') -> id v' = i ->
     exists v, In v (users w) /\ id v = i /\
       (~ In "email" (map key src) -> email v' = email v) /\
       (~ In "hashed_password" (map key src) ->
        hashed_password v' = hashed_password v) /\
       (~ In "session_id" (map key src) -> session_id v' = session_id v) /\
       (~ In "reset_token" (map key src) ->
        reset_token v' = reset_token v)).
Proof.
  intros Hm Hk (u & Hu & <-). eexists. unfold returns.
  rewrite (update_member_eq u src w Hu Hm Hk). split; [reflexivity|].
  simpl. split; [reflexivity|]. split; [reflexivity|].
  assert (Hid : forall x, id (DB.set_columns src x) = id x)
    by (intros x; now apply set_columns_id).
  split; [now apply touch_ids|]. split.
  - intros v Hv. rewrite in_touch. split.
    + intros (x & Hx & ->). destruct (id x =? id u) eqn:E; auto.
      apply Z.eqb_eq in E. destruct Hv. now rewrite Hid.
    + intros Hin. exists v. split; auto.
      apply Z.eqb_neq in Hv. now rewrite Hv.
  - intros v' Hv' Hi. apply in_touch in Hv' as (x & Hx & ->).
    destruct (Z.eqb_spec (id x) (id u)) as [E|N]; [|congruence].
    exists x. split; [exact Hx|]. split; [exact E|].
    repeat split; intros Hn.
    + apply (set_columns_keeps email "email" src x); auto.
      intros k v Hkey; destruct k; simpl in *; congruence.
    + apply (set_columns_keeps hashed_password "hashed_password" src x);
        auto.
      intros k v Hkey; destruct k; simpl in *; congruence.
    + apply (set_columns_keeps session_id "session_id" src x); auto.
      intros k v Hkey; destruct k; simpl in *; congruence.
    + apply (set_columns_keeps reset_token "reset_token" src x); auto.
      intros k v Hkey; destruct k; simpl in *; congruence.
Qed.

(** X14.  The password is hashed before anything is written: when
    [bcrypt.hashpw] raises, [register_user] for a new email and
    [update_password] for a pending token raise the same exception and
    change no row, so the reset token stays pending. *)
Theorem hashing_failure_writes_nothing (w : World) (e t p : string)
  (x : Exception) :
  hashpw (encode_utf8 p) (gensalt (entropy w)) = Raise x ->
  ((forall u, In u (users w) -> email u <> e) ->
   exists w', raises (Auth.register_user e p) w x w' /\
              users w' = users w) /\
  ((exists u, In u (users w) /\ reset_token u = Some t) ->
   exists w', raises (Auth.update_password t p) w x w' /\
              users w' = users w /\
              exists u, In u (users w') /\ reset_token u = Some t).
Proof.
  intros Hx. unfold raises. split.
  - intros Hno. eexists.
    rewrite register_user_eq, (find_no_email e _ Hno), Hx.
    split; reflexivity.
  - intros (u & Hu & Ht). eexists. rewrite update_password_eq.
    destruct (find (matching [kw_reset_token (Some t)]) (users w)) eqn:E.
    + rewrite Hx. repeat split. exists u. auto.
    + pose proof (find_none _ _ E u Hu) as N.
      apply matching_reset in Ht. congruence.
Qed.

(** X15.  On a reachable state a session id is not accepted as a reset
    token and a reset token does not resolve as a session:
    [update_password] with the session id of a stored user raises
    [ValueError], and [get_user_from_session_id] with a pending reset
    token returns [None]. *)
Theorem tokens_are_not_interchangeable (U : UuidContract L)
  (w : World) (u : User) :
  Reachable w -> In u (users w) ->
  (forall s p, session_id u = Some s ->
     raises (Auth.update_password s p) w ValueError (logged [SELECT] w)) /\
  (forall t, reset_token u = Some t ->
     returns (Auth.get_user_from_session_id (Some t)) w None
             (logged [SELECT] w)).
Proof.
  intros HR Hu. pose proof (Reachable_apart w HR) as Ha. split.
  - intros s p Hs. unfold raises.
    rewrite update_password_eq, find_no_reset; [reflexivity|].
    intros v Hv Rv. exact (Ha u v s Hu Hv Hs Rv).
  - intros t Ht. unfold returns.
    rewrite get_user_from_session_id_eq, find_no_session; [reflexivity|].
    intros v Hv Sv. exact (Ha v u t Hv Hu Sv Ht).
Qed.


Lemma find_touch_email (e : string) (i : Z) (f : User -> User)
  (us : list User) :
  (forall x, email (f x) = email x) ->
  find (matching [kw_email e]) (touch i f us) =
  option_map (fun x => if id x =? i then f x else x)
             (find (matching [kw_email e]) us).
Proof.
  intros Hf. induction us as [|x us IH]; [reflexivity|].
  change (touch i f (x :: us))
    with ((if id x =? i then f x else x) :: touch i f us).
  cbn [find].
  assert (E : matching [kw_email e] (if id x =? i then f x else x)
              = matching [kw_email e] x).
  { unfold matching. simpl. destruct (id x =? i); [now rewrite Hf | auto]. }
  rewrite E. destruct (matching [kw_email e] x); [reflexivity | exact IH].
Qed.

Lemma valid_login_touch (e p : string) (i : Z) (f : User -> User)
  (w : World) st n :
  (forall x, email (f x) = email x) ->
  (forall x, hashed_password (f x) = hashed_password x) ->
  fst (Auth.valid_login e p (mkWorld (touch i f (users w)) st n)) =
  fst (Auth.valid_login e p w).
Proof.
  intros He Hh. rewrite !valid_login_eq. simpl.
  rewrite (find_touch_email e i f _ He).
  destruct (find (matching [kw_email e]) (users w)) as [x|]; simpl;
    [|reflexivity].
  destruct (id x =? i); [now rewrite Hh | reflexivity].
Qed.

(** X19.  Logging in depends on emails and hashes only, which the
    session and reset-token methods never write: in any state, whatever
    [create_session], [destroy_session] or [get_reset_password_token]
    did, [valid_login] gives afterwards what it gave before. *)
Theorem login_survives_token_methods (w : World) (e p e' : string)
  (i : option Z) :
  fst (Auth.valid_login e p (snd (Auth.create_session e' w))) =
  fst (Auth.valid_login e p w) /\
  fst (Auth.valid_login e p (snd (Auth.destroy_session i w))) =
  fst (Auth.valid_login e p w) /\
  fst (Auth.valid_login e p (snd (Auth.get_reset_password_token e' w))) =
  fst (Auth.valid_login e p w).
Proof.
  split; [|split].
  - rewrite create_session_eq.
    destruct (find (matching [kw_email e']) (users w)); simpl snd.
    + now apply valid_login_touch.
    + now rewrite !valid_login_eq.
  - destruct i as [i|]; [|reflexivity]. rewrite destroy_session_eq.
    destruct (find (matching [kw_id i]) (users w)); simpl snd.
    + now apply valid_login_touch.
    + now rewrite !valid_login_eq.
  - rewrite get_reset_password_token_eq.
    destruct (find (matching [kw_email e']) (users w)); simpl snd.
    + now apply valid_login_touch.
    + now rewrite !valid_login_eq.
Qed.

End Extras.

(** ** The further properties at the scenarios *)

Module Scenario2Facts.
Import Scenario Scenario2.

Lemma users_w4 : users w4 = [alice2; carol].
Proof. reflexivity. Qed.

Lemma reachable_w4 : Reachable (L := Reference.libs) w4.
Proof. repeat apply reach_call. apply reach_init. Qed.

End Scenario2Facts.

(** X1 at the scenario. *)
Lemma reachable_rows_unique_witness :
  NoDup (map id (users Scenario2.w4)) /\
  NoDup (map email (users Scenario2.w4)).
Proof.
  pose proof (reachable_rows_unique (L := Reference.libs)
                ReferenceFacts.uuid Scenario2.w4
                Scenario2Facts.reachable_w4) as (Hid & Hem & _).
  split; [exact Hid | exact Hem].
Defined.


(** X4 at the scenario. *)
Lemma reset_then_login_witness :
  exists t w1 w2,
    returns (Auth.get_reset_password_token (L := Reference.libs) "a@b.com")
            Scenario.w2 t w1 /\
    returns (Auth.update_password (L := Reference.libs) t "new") w1 tt w2 /\
    returns (Auth.valid_login (L := Reference.libs) "a@b.com" "new")
            w2 true (logged [SELECT] w2).
Proof.
  apply (reset_then_login (L := Reference.libs)
           reference_checks ReferenceFacts.uuid
           Scenario.w2 Scenario.alice2 "new"
           ScenarioFacts.reachable_w2 (or_introl eq_refl)).
  intros n. eexists. apply ReferenceFacts.ref_hashpw_gensalt.
Defined.

(** X5 at the scenario. *)
Lemma create_session_replaces_witness :
  exists t1 t2 w1 w2,
    returns (Auth.create_session (L := Reference.libs) "a@b.com")
            Scenario.w1 (Some t1) w1 /\
    returns (Auth.create_session (L := Reference.libs) "a@b.com")
            w1 (Some t2) w2 /\
    returns (Auth.get_user_from_session_id (L := Reference.libs) (Some t1))
            w2 None (logged [SELECT] w2).
Proof.
  destruct (create_session_replaces (L := Reference.libs)
              ReferenceFacts.uuid Scenario.w1 Scenario.alice1
              ScenarioFacts.reachable_w1 (or_introl eq_refl))
    as (t1 & t2 & w1 & w2 & H1 & H2 & _ & Hgone & _).
  exists t1, t2, w1, w2. repeat split; assumption.
Defined.

(** X6 at the scenario. *)
Lemma reset_token_replaces_witness :
  exists t1 t2 w1 w2,
    returns (Auth.get_reset_password_token (L := Reference.libs) "a@b.com")
            Scenario.w2 t1 w1 /\
    returns (Auth.get_reset_password_token (L := Reference.libs) "a@b.com")
            w1 t2 w2 /\
    raises (Auth.update_password (L := Reference.libs) t1 "new")
           w2 ValueError (logged [SELECT] w2).
Proof.
  destruct (reset_token_replaces (L := Reference.libs)
              ReferenceFacts.uuid Scenario.w2 Scenario.alice2 "new"
              ScenarioFacts.reachable_w2 (or_introl eq_refl))
    as (t1 & t2 & w1 & w2 & H1 & H2 & _ & Hrefused).
  exists t1, t2, w1, w2. repeat split; assumption.
Defined.

(** X7 at the scenario: the second account logs in, the session of the
    first one stays. *)
Lemma create_session_frame_witness :
  exists t w1,
    returns (Auth.create_session (L := Reference.libs) "c@d.com")
            Scenario2.w4 (Some t) w1 /\
    returns (Auth.get_user_from_session_id (L := Reference.libs) (Some "1"))
            w1 (Some Scenario.alice2) (logged [SELECT] w1).
Proof.
  destruct (create_session_frame (L := Reference.libs)
              ReferenceFacts.uuid Scenario2.w4
              Scenario2.carol Scenario.alice2
              Scenario2Facts.reachable_w4
              (or_intror (or_introl eq_refl)) (or_introl eq_refl))
    as (t & w1 & Hret & _ & Hkeeps).
  - discriminate.
  - exists t, w1. split; [exact Hret | exact (Hkeeps "1" eq_refl)].
Defined.

(** X8 at the scenario: an id no row has, and a key [User] lacks on the
    id of a stored row. *)
Lemma update_user_errors_witness :
  raises (DB.update_user (L := Reference.libs) 7 [kw_other "nickname"])
         Scenario.w1 NoResultFound (logged [SELECT] Scenario.w1) /\
  raises (DB.update_user (L := Reference.libs) 1 [kw_other "nickname"])
         Scenario.w1 ValueError (logged [SELECT] Scenario.w1).
Proof.
  split.
  - apply (proj1 (update_user_errors (L := Reference.libs)
                    7 [kw_other "nickname"] Scenario.w1)).
    + intros u [<-|[]]. discriminate.
    + reflexivity.
  - apply (proj2 (update_user_errors (L := Reference.libs)
                    1 [kw_other "nickname"] Scenario.w1)).
    + exists Scenario.alice1. split; [now left | reflexivity].
    + exists (kw_other "nickname"). split; [now left | reflexivity].
Defined.

(** X9 at the scenario: a second row. *)
Lemma add_user_round_trip_witness :
  exists u w',
    returns (DB.add_user "c@d.com" [x31]) Scenario.w1 (Some u) w' /\
    id u = 2 /\
    users w' = [Scenario.alice1; u] /\
    returns (DB.find_user_by (L := Reference.libs) [kw_id 2]) w' u
            (logged [SELECT] w').
Proof.
  destruct (add_user_round_trip (L := Reference.libs)
              "c@d.com" [x31] Scenario.w1)
    as (u & w' & Hret & _ & _ & _ & _ & _ & Hrows & Hfind).
  - intros v [<-|[]]. reflexivity.
  - assert (Hid : id u = 2).
    { unfold returns in Hret. rewrite add_user_eq in Hret.
      now injection Hret as <- _. }
    exists u, w'. split; [exact Hret|]. split; [exact Hid|].
    split; [exact Hrows|]. rewrite <- Hid at 1. exact Hfind.
Defined.

(** X10 at the empty table. *)
Lemma add_user_keeps_duplicates_witness :
  exists u1 u2 w1 w2,
    returns (DB.add_user "a@b.com" [x31])
            Scenario.w0 (Some u1) w1 /\
    returns (DB.add_user "a@b.com" [x32])
            w1 (Some u2) w2 /\
    users w2 = [u1; u2] /\
    returns (DB.find_user_by (L := Reference.libs) [kw_email "a@b.com"])
            w2 u1 (logged [SELECT] w2).
Proof.
  destruct (add_user_keeps_duplicates (L := Reference.libs)
              "a@b.com" [x31] [x32] Scenario.w0)
    as (u1 & u2 & w1 & w2 & H1 & H2 & Hrows & _ & _ & _ & _ & _ & Hfind).
  - intros v [].
  - intros v [].
  - exists u1, u2, w1, w2. repeat split; assumption.
Defined.

(** X11 at the scenario: the stored row has a null session id, and a
    null criterion still finds nothing. *)
Lemma find_user_by_null_criterion_witness :
  session_id Scenario.alice1 = None /\
  raises (DB.find_user_by (L := Reference.libs) [kw_session_id None])
         Scenario.w1 NoResultFound (logged [SELECT] Scenario.w1).
Proof.
  split; [reflexivity|].
  apply (find_user_by_null_criterion (L := Reference.libs)
           [kw_session_id None] Scenario.w1 eq_refl eq_refl).
  left. now left.
Defined.

(** X12 at the scenario: two criteria, the second row meets both. *)
Lemma find_user_by_first_match_witness :
  exists before rest,
    users Scenario2.w4 = before ++ Scenario2.carol :: rest /\
    forall v, In v before ->
      exists k, In k [kw_email "c@d.com"; kw_id 2] /\ DB.holds v k = false.
Proof.
  destruct (proj1 (find_user_by_first_match (L := Reference.libs)
                     [kw_email "c@d.com"; kw_id 2] Scenario2.w4
                     eq_refl eq_refl)
                  Scenario2.carol (logged [SELECT] Scenario2.w4) eq_refl)
    as (before & rest & Hrows & _ & Hbefore).
  exists before, rest. split; [exact Hrows | exact Hbefore].
Defined.

(** X13 at the scenario: writing the session id of the second row. *)
Lemma update_user_frame_witness :
  exists w',
    returns (DB.update_user (L := Reference.libs) 2
               [kw_session_id (Some "s")])
            Scenario2.w4 tt w' /\
    map id (users w') = [1; 2] /\
    (In Scenario.alice2 (users w') <-> In Scenario.alice2 (users Scenario2.w4)).
Proof.
  destruct (update_user_frame (L := Reference.libs) 2
              [kw_session_id (Some "s")] Scenario2.w4 eq_refl eq_refl)
    as (w' & Hret & _ & _ & Hids & Hother & _).
  - exists Scenario2.carol. split; [right; now left | reflexivity].
  - exists w'. split; [exact Hret|]. split; [exact Hids|].
    apply Hother. discriminate.
Defined.

(** X14 with a bcrypt that refuses a password of 73 bytes. *)
Lemma hashing_failure_writes_nothing_witness :
  (exists w',
     raises (Auth.register_user (L := StrictReference.libs) "a@b.com"
               StrictReference.long_password)
            Scenario.w0 ValueError w' /\
     users w' = []) /\
  (exists w',
     raises (Auth.update_password (L := StrictReference.libs) "tok"
               StrictReference.long_password)
            Scenario2.w_pending ValueError w' /\
     users w' = users Scenario2.w_pending).
Proof.
  split.
  - destruct (proj1 (hashing_failure_writes_nothing
                       (L := StrictReference.libs) Scenario.w0
                       "a@b.com" "tok" StrictReference.long_password
                       ValueError eq_refl))
      as (w' & Hraise & Hrows).
    + intros v [].
    + exists w'. split; [exact Hraise | exact Hrows].
  - destruct (proj2 (hashing_failure_writes_nothing
                       (L := StrictReference.libs) Scenario2.w_pending
                       "a@b.com" "tok" StrictReference.long_password
                       ValueError eq_refl))
      as (w' & Hraise & Hrows & _).
    + eexists. split; [now left | reflexivity].
    + exists w'. split; [exact Hraise | exact Hrows].
Defined.

(** X15 at the scenario: the session id ["1"] is refused as a reset
    token, the reset token ["2"] resolves to nobody. *)
Lemma tokens_are_not_interchangeable_witness :
  raises (Auth.update_password (L := Reference.libs) "1" "new")
         Scenario.w3 ValueError (logged [SELECT] Scenario.w3) /\
  returns (Auth.get_user_from_session_id (L := Reference.libs) (Some "2"))
          Scenario.w3 None (logged [SELECT] Scenario.w3).
Proof.
  destruct (tokens_are_not_interchangeable (L := Reference.libs)
              ReferenceFacts.uuid Scenario.w3 Scenario.alice3
              ScenarioFacts.reachable_w3 (or_introl eq_refl))
    as (Hsession & Hreset).
  split; [exact (Hsession "1" "new" eq_refl) | exact (Hreset "2" eq_refl)].
Defined.


(** * Properties of [require_auth] *)

Module ApiAuthFacts.
Import ApiAuth.

Lemma list_ascii_app (a b : string) :
  list_ascii_of_string (a ++ b)%string =
  list_ascii_of_string a ++ list_ascii_of_string b.
Proof. induction a as [|c a IH]; simpl; [reflexivity | now rewrite IH]. Qed.

Lemma ref_re_match_suffix (stem s : string) (c : ascii) :
  Ascii.eqb c "." || Ascii.eqb c "/" = true ->
  ref_re_match (stem ++ String c "*")%string s = inr (String.prefix stem s).
Proof.
  intros Hc. unfold ref_re_match. rewrite list_ascii_app. simpl.
  rewrite rev_app_distr. simpl. rewrite Hc, rev_involutive.
  now rewrite string_of_list_ascii_of_string.
Qed.

Lemma ref_re_contract : ReContract ref_re.
Proof.
  split; intros stem s _; simpl; now apply ref_re_match_suffix.
Qed.

Lemma last_char_none (s : string) : last_char s = None -> s = ""%string.
Proof.
  unfold last_char. intros H.
  destruct (rev (list_ascii_of_string s)) as [|c r] eqn:E; [|discriminate].
  apply (f_equal (@rev ascii)) in E. rewrite rev_involutive in E. simpl in E.
  rewrite <- (string_of_list_ascii_of_string s). now rewrite E.
Qed.

(** The pattern is the stem followed by [.*] or by [/*]. *)
Lemma pattern_of_stem (x : string) :
  x <> ""%string ->
  pattern_of x = inr (stem x ++ ".*")%string \/
  pattern_of x = inr (stem x ++ "/*")%string.
Proof.
  intros Hx. unfold pattern_of, stem.
  destruct (last_char x) as [c|] eqn:E.
  - destruct (Ascii.eqb c "*"); simpl; [now left|].
    destruct (Ascii.eqb c "/"); now right.
  - now destruct (Hx (last_char_none x E)).
Qed.

Section WithRe.
Context {R : Re}.

Lemma match_pattern_of {C : ReContract R} (x path : string) :
  x <> ""%string -> literal (stem x) = true ->
  exists pattern, pattern_of x = inr pattern /\
                  re_match pattern path = inr (String.prefix (stem x) path).
Proof.
  intros Hx Hl. destruct (pattern_of_stem x Hx) as [E|E]; eexists;
    (split; [exact E|]).
  - now apply match_dot_star.
  - now apply match_slash_star.
Qed.

(** X17.  An exclusion path that is empty, or is whitespace only, makes
    [require_auth] raise [IndexError] as soon as the loop reaches it,
    that is when no exclusion path before it matches the path. *)
Theorem require_auth_blank_entry_raises
  (path : string) (before : list string) (blank : string)
  (rest : list string) :
  strip blank = ""%string ->
  (forall x, In x before ->
     exists pattern, pattern_of (strip x) = inr pattern /\
                     re_match pattern path = inr false) ->
  require_auth (Some path) (Some (before ++ blank :: rest)) = inl IndexError.
Proof.
  intros Hblank. simpl. induction before as [|x before IH]; intros Hbefore.
  - simpl. now rewrite Hblank.
  - simpl. destruct (Hbefore x (or_introl eq_refl)) as (pattern & -> & ->).
    apply IH. intros y Hy. apply Hbefore. now right.
Qed.

(** X18.  With exclusion paths that are not blank and whose stem (the
    stripped path without a final asterisk or slash) has no regular
    expression metacharacter, [require_auth] is a prefix test: it returns
    [False] exactly when the path starts with the stem of some exclusion
    path, and [True] otherwise. *)
Theorem require_auth_prefix_test (C : ReContract R)
  (path : string) (excluded_paths : list string) :
  (forall x, In x excluded_paths ->
     strip x <> ""%string /\ literal (stem (strip x)) = true) ->
  exists b,
    require_auth (Some path) (Some excluded_paths) = inr b /\
    (b = false <->
     exists x, In x excluded_paths /\
               String.prefix (stem (strip x)) path = true).
Proof.
  simpl. induction excluded_paths as [|x rest IH]; intros Hall.
  - exists true. split; [reflexivity|]. split; [discriminate|].
    intros (x & [] & _).
  - destruct (Hall x (or_introl eq_refl)) as [Hx Hl].
    destruct (match_pattern_of (strip x) path Hx Hl) as (pattern & Hp & Hm).
    simpl. rewrite Hp, Hm.
    destruct (String.prefix (stem (strip x)) path) eqn:E.
    + exists false. split; [reflexivity|]. split; [|reflexivity].
      intros _. exists x. split; [now left | exact E].
    + destruct IH as (b & Hb & Hiff).
      { intros y Hy. apply Hall. now right. }
      exists b. split; [exact Hb|]. rewrite Hiff. split.
      * intros (y & Hy & Py). exists y. split; [now right | exact Py].
      * intros (y & [<-|Hy] & Py); [congruence|]. exists y. auto.
Qed.

End WithRe.

(** X17 at an input: the second entry is a blank string. *)
Lemma require_auth_blank_entry_raises_witness :
  require_auth (R := ref_re) (Some "/api/v1/users"%string)
               (Some ["/api/v1/status/"; "  "; "/api/v1/users"]%string)
  = inl IndexError.
Proof.
  apply (require_auth_blank_entry_raises (R := ref_re)
           "/api/v1/users" ["/api/v1/status/"%string] "  "
           ["/api/v1/users"%string] eq_refl).
  intros x [<-|[]]. eexists. split; reflexivity.
Defined.

(** X18 at an input: the exclusion path [/api/v1/status/] also lets
    [/api/v1/statusXYZ] through. *)
Lemma require_auth_prefix_test_witness :
  require_auth (R := ref_re) (Some "/api/v1/statusXYZ"%string)
               (Some ["/api/v1/status/"%string])
  = inr false.
Proof.
  destruct (require_auth_prefix_test (R := ref_re) ref_re_contract
              "/api/v1/statusXYZ" ["/api/v1/status/"%string])
    as (b & Hb & Hiff).
  - intros x [<-|[]]. split; [discriminate | reflexivity].
  - rewrite Hb. f_equal. apply Hiff.
    exists "/api/v1/status/"%string. split; [now left | reflexivity].
Defined.

End ApiAuthFacts.
